(** * Deal finder: the feed-ingestion pipeline of [agents/deals.py]

    A shallow embedding of [extract], [ScrapedDeal] (constructor, [describe],
    [fetch]) and of the pydantic contracts [Deal], [DealSelection] and
    [Opportunity], together with the Python string operations they call.

    Text is a Rocq [string]; each character stands for one code point of the
    Python [str] (the range 0..255).  The third-party libraries the module
    calls (feedparser, requests, BeautifulSoup, tqdm, pydantic's coercions)
    are not part of the program: they are the fields of the records [World]
    and [Pydantic], and every statement is made for an arbitrary value of
    these records unless it names a fixture. *)

From Stdlib Require Import String Ascii List Bool Arith ZArith Lia.
From Stdlib Require Import Floats.
From Stdlib Require Uint63.
Import ListNotations.

Local Open Scope string_scope.
Local Open Scope list_scope.

(** ** Python [str] operations *)

Module PyStr.

(** [s[n:]] *)
Fixpoint drop (n : nat) (s : string) : string :=
  match n, s with
  | S k, String _ t => drop k t
  | _, _ => s
  end.

(** [sub in s] *)
Fixpoint contains (sub s : string) : bool :=
  prefix sub s ||
  match s with
  | EmptyString => false
  | String _ t => contains sub t
  end.

(** [s.endswith(suffix)] *)
Fixpoint endswith (suffix s : string) : bool :=
  String.eqb suffix s ||
  match s with
  | EmptyString => false
  | String _ t => endswith suffix t
  end.

(** A segment followed by the later ones. *)
Definition parts (p : string * list string) : list string :=
  let (h, r) := p in h :: r.

(** The scanner behind [str.split(sep)] for a non-empty [sep]: the text is
    read left to right, [skip] counts the characters of a separator
    occurrence that remain to be jumped over, and the result is the segment
    being read followed by the later segments. *)
Fixpoint split_go (sep : string) (skip : nat) (s : string)
  : string * list string :=
  match s with
  | EmptyString => (EmptyString, [])
  | String c t =>
      match skip with
      | S k => split_go sep k t
      | O =>
          if prefix sep s
          then (EmptyString, parts (split_go sep (String.length sep - 1) t))
          else let (h, r) := split_go sep 0 t in (String c h, r)
      end
  end.

(** [s.split(sep)]; [None] is the [ValueError] Python raises for an empty
    separator. *)
Definition split (sep s : string) : option (list string) :=
  match sep with
  | EmptyString => None
  | _ => Some (parts (split_go sep 0 s))
  end.

(** The scanner behind [str.replace(old, new)] for a non-empty [old]. *)
Fixpoint replace_go (old new : string) (skip : nat) (s : string) : string :=
  match s with
  | EmptyString => EmptyString
  | String c t =>
      match skip with
      | S k => replace_go old new k t
      | O =>
          if prefix old s
          then new ++ replace_go old new (String.length old - 1) t
          else String c (replace_go old new 0 t)
      end
  end.

(** [new] put before every character and at the end: what [replace] does
    for an empty [old]. *)
Fixpoint interleave (new s : string) : string :=
  match s with
  | EmptyString => new
  | String c t => new ++ String c (interleave new t)
  end.

(** [s.replace(old, new)] *)
Definition replace (old new s : string) : string :=
  match old with
  | EmptyString => interleave new s
  | _ => replace_go old new 0 s
  end.

(** [c.isspace()] on the code points 0..255: TAB, LF, VT, FF, CR, the
    separators FS, GS, RS, US, the space, NEL and the no-break space. *)
Definition isspace (c : ascii) : bool :=
  let n := nat_of_ascii c in
  ((9 <=? n)%nat && (n <=? 13)%nat) || ((28 <=? n)%nat && (n <=? 32)%nat)
  || (n =? 133)%nat || (n =? 160)%nat.

Definition is_empty (s : string) : bool :=
  match s with EmptyString => true | _ => false end.

(** [s.lstrip()] *)
Fixpoint lstrip (s : string) : string :=
  match s with
  | EmptyString => EmptyString
  | String c t => if isspace c then lstrip t else s
  end.

(** [s.rstrip()] *)
Fixpoint rstrip (s : string) : string :=
  match s with
  | EmptyString => EmptyString
  | String c t =>
      let t' := rstrip t in
      if isspace c && is_empty t' then EmptyString else String c t'
  end.

(** [s.strip()] *)
Definition strip (s : string) : string := lstrip (rstrip s).

(** Character-wise image of a string. *)
Fixpoint smap (f : ascii -> ascii) (s : string) : string :=
  match s with
  | EmptyString => EmptyString
  | String c t => String (f c) (smap f t)
  end.

Definition LF : ascii := ascii_of_nat 10.
Definition SP : ascii := ascii_of_nat 32.

Definition nl : string := String LF EmptyString.
Definition sp : string := String SP EmptyString.

Definition nl_to_sp (c : ascii) : ascii :=
  if Ascii.eqb c LF then SP else c.

End PyStr.

(** ** The regular expression of [extract] *)

Module Re.

Definition LT : ascii := ascii_of_nat 60.
Definition GT : ascii := ascii_of_nat 62.

(** After [<] and one first character of the class [[^<]]: the number of
    further class characters the lazy [+?] takes before the closing [>],
    or [None] when a [<] or the end of the text comes first. *)
Fixpoint scan_close (s : string) : option nat :=
  match s with
  | EmptyString => None
  | String c t =>
      if Ascii.eqb c GT then Some 0
      else if Ascii.eqb c LT then None
      else option_map S (scan_close t)
  end.

(** Length of the match of [<[^<]+?>] at the start of [s], if there is
    one. *)
Definition match_tag (s : string) : option nat :=
  match s with
  | String c0 (String c1 t) =>
      if Ascii.eqb c0 LT && negb (Ascii.eqb c1 LT)
      then option_map (fun k => k + 3) (scan_close t)
      else None
  | _ => None
  end.

Fixpoint sub_go (skip : nat) (s : string) : string :=
  match s with
  | EmptyString => EmptyString
  | String c t =>
      match skip with
      | S k => sub_go k t
      | O =>
          match match_tag s with
          | Some n => sub_go (n - 1) t
          | None => String c (sub_go 0 t)
          end
      end
  end.

(** [re.sub('<[^<]+?>', '', s)]: one pass, left to right, over the
    non-overlapping matches. *)
Definition sub_tags (s : string) : string := sub_go 0 s.

End Re.

(** ** Exceptions, effects and the outside world *)

(** The exceptions the module can end with.  [LibError] is whatever one of
    the libraries raises itself (a connection error of requests, say). *)
Inductive exn : Type :=
| KeyError (key : string)
| IndexError
| AttributeError
| ValueError
| LibError (name : string).

(** What a run does that an observer can see besides its result. *)
Inductive event : Type :=
| FeedParsed (feed_url : string)   (* feedparser.parse(feed_url) *)
| HttpGet (url : string)           (* requests.get(url) *)
| Slept                            (* time.sleep(0.5) *)
| Bar (done total : nat).          (* the tqdm bar is updated *)

(** A computation: the events it emitted, and an exception or a value. *)
Definition M (A : Type) : Type := list event * (exn + A).

Definition ret {A} (a : A) : M A := ([], inr a).
Definition raise {A} (e : exn) : M A := ([], inl e).
Definition emit (ev : event) : M unit := ([ev], inr tt).

Definition bind {A B} (m : M A) (f : A -> M B) : M B :=
  match m with
  | (t1, inl e) => (t1, inl e)
  | (t1, inr a) => let (t2, r) := f a in (t1 ++ t2, r)
  end.

Declare Scope py_scope.
Delimit Scope py_scope with py.
Notation "x <- m ;; k" := (bind m (fun x => k))
  (at level 61, m at next level, right associativity) : py_scope.
Notation "m ;;; k" := (bind m (fun _ => k))
  (at level 61, right associativity) : py_scope.
Local Open Scope py_scope.

Definition lift {A} (r : exn + A) : M A := ([], r).

(** The events and the outcome of a run. *)
Definition trace {A} (m : M A) : list event := fst m.
Definition outcome {A} (m : M A) : exn + A := snd m.

(** [for x in xs: body], threading the variables the body assigns. *)
Fixpoint for_each {X St : Type} (xs : list X) (body : X -> St -> M St) (s : St)
  : M St :=
  match xs with
  | [] => ret s
  | x :: xs' => s' <- body x s ;; for_each xs' body s'
  end.

(** [for x in tqdm(xs): body]: the same elements in the same order, the bar
    being updated before each one and when the list is exhausted. *)
Fixpoint for_each_bar {X St : Type} (done total : nat) (xs : list X)
  (body : X -> St -> M St) (s : St) : M St :=
  match xs with
  | [] => emit (Bar done total) ;;; ret s
  | x :: xs' =>
      emit (Bar done total) ;;;
      s' <- body x s ;;
      for_each_bar (S done) total xs' body s'
  end.

Definition for_each_tqdm {X St : Type} (xs : list X)
  (body : X -> St -> M St) (s : St) : M St :=
  for_each_bar 0 (List.length xs) xs body s.

(** An element BeautifulSoup found, as far as the module looks at it. *)
Record Tag : Type := mkTag {
  get_text : string;        (* tag.get_text() *)
  get_text_strip : string   (* tag.get_text(strip=True) *)
}.

(** A feed entry: the keys [__init__] reads, absent or present. *)
Record Link : Type := mkLink { href : option string }.

Record Entry : Type := mkEntry {
  e_title : option string;
  e_summary : option string;
  e_links : option (list Link)
}.

Record Feed : Type := mkFeed { entries : list Entry }.

(** The libraries and the network.  A world is a function: within a run,
    and between the runs a statement compares, the same request gets the
    same answer. *)
Record World : Type := mkWorld {
  (* feedparser.parse(url) *)
  feedparser_parse : string -> exn + Feed;
  (* requests.get(url).content *)
  requests_get : string -> exn + string;
  (* BeautifulSoup(markup, 'html.parser').find('div', class_=cls) *)
  soup_find_div : string -> string -> option Tag;
  (* BeautifulSoup(markup, 'html.parser').get_text() *)
  soup_get_text : string -> string
}.

(** ** agents/deals.py *)

Definition feeds : list string :=
  [ "https://www.dealnews.com/c142/Electronics/?rss=1";
    "https://www.dealnews.com/c39/Computers/?rss=1";
    "https://www.dealnews.com/c238/Automotive/?rss=1";
    "https://www.dealnews.com/f1912/Smart-Home/?rss=1";
    "https://www.dealnews.com/c196/Home-Garden/?rss=1" ].

(** [extract(html_snippet)].  A [Tag] is always true in a condition, so
    [if snippet_div] asks whether [find] returned an element.  The two
    parses are taken to return: a markup on which [html.parser] itself
    raises is outside this model. *)
Definition extract (W : World) (html_snippet : string) : string :=
  let result :=
    match soup_find_div W html_snippet "snippet summary" with
    | Some snippet_div =>
        let description := get_text_strip snippet_div in
        let description := soup_get_text W description in
        let description := Re.sub_tags description in
        PyStr.strip description
    | None => html_snippet
    end in
  PyStr.replace PyStr.nl PyStr.sp result.

(** The attributes [__init__] assigns ([category] is declared and never
    assigned). *)
Record ScrapedDeal : Type := mkScrapedDeal {
  title : string;
  summary : string;
  url : string;
  details : string;
  features : string
}.

(** [d[key]] *)
Definition getitem {A} (key : string) (v : option A) : M A :=
  match v with
  | Some a => ret a
  | None => raise (KeyError key)
  end.

(** [l[0]] *)
Definition first_item {A} (l : list A) : M A :=
  match l with
  | a :: _ => ret a
  | [] => raise IndexError
  end.

(** [content.replace('\nmore', '').replace('\n', ' ')] *)
Definition clean_content (content : string) : string :=
  PyStr.replace PyStr.nl PyStr.sp
    (PyStr.replace (PyStr.nl ++ "more") "" content).

(** The [if "Features" in content] statement: the pair
    [(self.details, self.features)].  Unpacking a list that does not have
    exactly two items into the two targets is a [ValueError]. *)
Definition split_content (content : string) : exn + (string * string) :=
  if PyStr.contains "Features" content
  then match PyStr.split "Features" content with
       | Some [d; f] => inr (d, f)
       | _ => inl ValueError
       end
  else inr (content, "").

(** The cleaned text of the page's content section, or the
    [AttributeError] of [None.get_text()]. *)
Definition page_content (W : World) (stuff : string) : exn + string :=
  match soup_find_div W stuff "content-section" with
  | Some section => inr (clean_content (get_text section))
  | None => inl AttributeError
  end.

(** [ScrapedDeal.__init__(self, entry)] *)
Definition ScrapedDeal_init (W : World) (entry : Entry) : M ScrapedDeal :=
  title <- getitem "title" (e_title entry) ;;
  raw <- getitem "summary" (e_summary entry) ;;
  let summary := extract W raw in
  links <- getitem "links" (e_links entry) ;;
  link <- first_item links ;;
  url <- getitem "href" (href link) ;;
  emit (HttpGet url) ;;;
  stuff <- lift (requests_get W url) ;;
  content <- lift (page_content W stuff) ;;
  parts <- lift (split_content content) ;;
  ret (mkScrapedDeal title summary url (fst parts) (snd parts)).

(** [ScrapedDeal.__repr__] *)
Definition repr (d : ScrapedDeal) : string := "<" ++ title d ++ ">".

(** [ScrapedDeal.describe] *)
Definition describe (d : ScrapedDeal) : string :=
  "Title: " ++ title d ++ PyStr.nl ++
  "Details: " ++ PyStr.strip (details d) ++ PyStr.nl ++
  "Features: " ++ PyStr.strip (features d) ++ PyStr.nl ++
  "URL: " ++ url d.

(** The body of the inner loop of [fetch]. *)
Definition fetch_entry (W : World) (entry : Entry) (deals : list ScrapedDeal)
  : M (list ScrapedDeal) :=
  d <- ScrapedDeal_init W entry ;;
  let deals := deals ++ [d] in
  emit Slept ;;;
  ret deals.

(** The body of the outer loop of [fetch]. *)
Definition fetch_feed (W : World) (feed_url : string)
  (deals : list ScrapedDeal) : M (list ScrapedDeal) :=
  emit (FeedParsed feed_url) ;;;
  feed <- lift (feedparser_parse W feed_url) ;;
  for_each (firstn 10 (entries feed)) (fetch_entry W) deals.

(** [ScrapedDeal.fetch(show_progress)], the module-level list [feeds] being
    an argument. *)
Definition fetch_from (W : World) (feeds : list string) (show_progress : bool)
  : M (list ScrapedDeal) :=
  let deals := [] in
  deals <- (if show_progress
            then for_each_tqdm feeds (fetch_feed W) deals
            else for_each feeds (fetch_feed W) deals) ;;
  ret deals.


(** ** The pydantic contracts *)

(** The Python values a caller can pass for a field. *)
Inductive PyVal : Type :=
| PyNone
| PyBool (b : bool)
| PyInt (n : Z)
| PyFloat (f : float)
| PyStr (s : string).











(** One line of a [ValidationError]. *)
Inductive field_error : Type :=
| Missing (field : string)
| Invalid (field : string).

Definition kwargs : Type := list (string * PyVal).

Fixpoint lookup (key : string) (kw : kwargs) : option PyVal :=
  match kw with
  | [] => None
  | (k, v) :: kw' => if String.eqb k key then Some v else lookup key kw'
  end.

(** A required field: the keyword must be there and must validate. *)
Definition field {A} (validate : PyVal -> option A) (name : string)
  (kw : kwargs) : list field_error + A :=
  match lookup name kw with
  | None => inl [Missing name]
  | Some v =>
      match validate v with
      | Some a => inr a
      | None => inl [Invalid name]
      end
  end.


Record Deal : Type := mkDeal {
  product_description : string;
  price : float;
  deal_url : string
}.

Record DealSelection : Type := mkDealSelection { deals : list Deal }.

Record Opportunity : Type := mkOpportunity {
  deal : Deal;
  estimate : float;
  discount : float
}.



(** deal_agent_streamlit.py, [display_opportunities]: the message chosen
    from the discount. *)
Inductive verdict : Type := GreatDeal | GoodDeal | Overpriced.

Definition display_verdict (opp : Opportunity) : verdict :=
  if (50 <? discount opp)%float then GreatDeal
  else if (0 <? discount opp)%float then GoodDeal
  else Overpriced.

(** ** Fixtures: a small site for the scenarios *)

Module Fixture.

Definition assoc {A} (key : string) (table : list (string * A))
  : option A :=
  option_map snd (find (fun kv => String.eqb (fst kv) key) table).

(** A world given by tables: the feeds, the pages, the content-section
    text and the snippet-summary text of the markups in play, and the text
    of the markups parsed a second time.  A feed that is not listed has no
    entries, a page that is not listed cannot be reached, a markup that is
    not listed has none of the two elements. *)
Definition world
  (feed_table : list (string * (exn + Feed)))
  (page_table : list (string * string))
  (section_table : list (string * string))
  (snippet_table : list (string * string))
  (text_table : list (string * string)) : World :=
  mkWorld
    (fun u => match assoc u feed_table with
              | Some r => r
              | None => inr (mkFeed [])
              end)
    (fun u => match assoc u page_table with
              | Some body => inr body
              | None => inl (LibError "ConnectionError")
              end)
    (fun markup cls =>
       if String.eqb cls "content-section"
       then option_map (fun t => mkTag t (PyStr.strip t))
              (assoc markup section_table)
       else if String.eqb cls "snippet summary"
       then option_map (fun t => mkTag t t) (assoc markup snippet_table)
       else None)
    (fun markup => match assoc markup text_table with
                   | Some t => t
                   | None => markup
                   end).

Definition entry (t s u : string) : Entry :=
  mkEntry (Some t) (Some s) (Some [mkLink (Some u)]).

Definition page (text : string) : string :=
  "<div class='content-section'>" ++ text ++ "</div>".

(** Three pages: the scenario of the specification, a page whose text ends
    with the marker, and a page with the marker twice. *)
Definition text_scenario : string :=
  "...intro text...Features bullet one bullet two".
Definition text_trailing : string := "introFeatures".
Definition text_twice : string := "aFeaturesbFeaturesc".

Definition e_scenario : Entry := entry "Lamp" "A lamp" "http://site/lamp".
Definition e_trailing : Entry := entry "Desk" "A desk" "http://site/desk".
Definition e_twice : Entry := entry "Bike" "A bike" "http://site/bike".
Definition e_nosection : Entry := entry "Sofa" "A sofa" "http://site/sofa".
Definition e_unreachable : Entry := entry "Car" "A car" "http://site/car".

Definition site : World :=
  world
    [ ("http://feed/three", inr (mkFeed [e_scenario; e_scenario; e_scenario]));
      ("http://feed/twelve", inr (mkFeed (repeat e_scenario 12)));
      ("http://feed/empty", inr (mkFeed []));
      ("http://feed/down", inl (LibError "RemoteDisconnected"));
      ("http://feed/twice", inr (mkFeed [e_scenario; e_twice; e_scenario])) ]
    [ ("http://site/lamp", page text_scenario);
      ("http://site/desk", page text_trailing);
      ("http://site/bike", page text_twice);
      ("http://site/sofa", "<p>moved</p>") ]
    [ (page text_scenario, text_scenario);
      (page text_trailing, text_trailing);
      (page text_twice, text_twice) ]
    [] [].

(** The record of the scenario. *)
Definition d_scenario : ScrapedDeal :=
  mkScrapedDeal "Lamp" "A lamp" "http://site/lamp"
    "...intro text..." " bullet one bullet two".

(** A plain summary of two lines. *)
Definition two_lines : string := "one" ++ PyStr.nl ++ "two".

(** A summary whose text, once the entities are decoded twice and the
    expression has removed [<x>], is a snippet-summary element again. *)
Definition nested_snippet : string :=
  "<div class='snippet summary'>&amp;lt;&amp;lt;x&amp;gt;div class='snippet summary'&amp;gt;hello</div>".
Definition nested_text1 : string :=
  "&lt;&lt;x&gt;div class='snippet summary'&gt;hello".
Definition nested_text2 : string :=
  "<<x>div class='snippet summary'>hello".
Definition nested_out : string := "<div class='snippet summary'>hello".

Definition snippets : World :=
  world [] [] []
    [ (nested_snippet, nested_text1); (nested_out, "hello") ]
    [ (nested_text1, nested_text2) ].

End Fixture.

(** ** deal_agent_streamlit.py: what the dashboard computes *)

(** [len([opp for opp in memory if opp.discount > 50])], the metric
    "Deals Above Threshold". *)
Definition good_deals (memory : list Opportunity) : nat :=
  length (filter (fun opp => (50 <? discount opp)%float) memory).

(** The loop of the builtin [max]: the running maximum is replaced by an
    item that is greater than it. *)
Fixpoint max_from (maxval : float) (items : list float) : float :=
  match items with
  | [] => maxval
  | item :: items' =>
      max_from (if (maxval <? item)%float then item else maxval) items'
  end.

(** [max(items)]; an empty sequence is a [ValueError]. *)
Definition py_max (items : list float) : exn + float :=
  match items with
  | [] => inl ValueError
  | item :: items' => inr (max_from item items')
  end.

(** The value behind the metric "Best Discount" of
    [display_memory_stats]: [max(opp.discount for opp in memory)] under
    [if memory], and no value (the text "$0.00") otherwise. *)
Definition best_discount (memory : list Opportunity) : exn + option float :=
  match memory with
  | [] => inr None
  | _ :: _ =>
      match py_max (map discount memory) with
      | inl e => inl e
      | inr m => inr (Some m)
      end
  end.

(** A row of the exported table, by column. *)
Record Row : Type := mkRow {
  col_product_description : string;   (* 'Product Description' *)
  col_deal_price : float;             (* 'Deal Price' *)
  col_estimated_value : float;        (* 'Estimated Value' *)
  col_discount : float;               (* 'Discount' *)
  col_url : string                    (* 'URL' *)
}.

(** The loop of [export_opportunities]: [data.append({...})] for every
    opportunity of the memory. *)
Definition export_rows (memory : list Opportunity) : list Row :=
  fold_left
    (fun data opp =>
       data ++ [mkRow (product_description (deal opp)) (price (deal opp))
                  (estimate opp) (discount opp) (deal_url (deal opp))])
    memory [].

(** [export_opportunities]: the rows handed to the table, or nothing (the
    warning) without a framework or with an empty memory. *)
Definition export_opportunities (framework : option (list Opportunity))
  : option (list Row) :=
  match framework with
  | None | Some [] => None
  | Some memory => Some (export_rows memory)
  end.

(** A [dict] with string keys: the items in insertion order. *)
Definition dict (V : Type) : Type := list (string * V).

(** [d.get(key, default)] *)
Fixpoint dict_get {V} (key : string) (default : V) (d : dict V) : V :=
  match d with
  | [] => default
  | (k, v) :: d' => if String.eqb k key then v else dict_get key default d'
  end.

(** [d[key] = value]: a key that is there keeps its place. *)
Fixpoint dict_set {V} (key : string) (value : V) (d : dict V) : dict V :=
  match d with
  | [] => [(key, value)]
  | (k, v) :: d' =>
      if String.eqb k key then (k, value) :: d'
      else (k, v) :: dict_set key value d'
  end.

(** The loop of [create_product_embedding_visualization] that counts the
    colors:
    [category_counts[color] = category_counts.get(color, 0) + 1]. *)
Definition category_counts (colors : list string) : dict nat :=
  fold_left
    (fun counts color => dict_set color (dict_get color 0 counts + 1) counts)
    colors [].

(** ** Vocabulary of the statements *)

(** The positive zero, and the numbers of sign [s] that are not zero. *)
Definition SFzero : spec_float := S754_zero false.

Definition signed_nonzero (s : bool) (r : spec_float) : Prop :=
  match r with
  | S754_finite s' _ _ | S754_infinity s' => s' = s
  | _ => False
  end.

(** One turn of the counting loop. *)
Definition counts_step (counts : dict nat) (color : string) : dict nat :=
  dict_set color (dict_get color 0 counts + 1) counts.

(** The character [c] occurs in [s]. *)
Fixpoint occurs (c : ascii) (s : string) : bool :=
  match s with
  | EmptyString => false
  | String c' t => Ascii.eqb c' c || occurs c t
  end.





(** What the driver does for a record, for a feed and for a whole run that
    returns. *)
Definition record_events (d : ScrapedDeal) : list event :=
  [HttpGet (url d); Slept].

Definition feed_events (feed_url : string) (recs : list ScrapedDeal)
  : list event :=
  FeedParsed feed_url :: flat_map record_events recs.

Fixpoint run_events (feed_urls : list string)
  (per_feed : list (list ScrapedDeal)) : list event :=
  match feed_urls, per_feed with
  | u :: us, recs :: rest => feed_events u recs ++ run_events us rest
  | _, _ => []
  end.

(** The first occurrences of the elements of a list, in order. *)
Fixpoint first_occurrences (l : list string) : list string :=
  match l with
  | [] => []
  | x :: l' =>
      x :: filter (fun y => negb (String.eqb y x)) (first_occurrences l')
  end.

(** The events of the progress bar, and a trace without them. *)
Definition is_bar (ev : event) : bool :=
  match ev with
  | Bar _ _ => true
  | _ => false
  end.

Definition without_bar (t : list event) : list event :=
  filter (fun ev => negb (is_bar ev)) t.

(** [recs] are the records built, in order, from the entries [es]. *)
Definition built_from (W : World) (es : list Entry) (recs : list ScrapedDeal)
  : Prop :=
  Forall2 (fun e d => outcome (ScrapedDeal_init W e) = inr d) es recs.

(** [recs] are the records of the feed at [feed_url]: the feed is parsed
    and [recs] are built from its first ten entries. *)
Definition feed_records (W : World) (feed_url : string)
  (recs : list ScrapedDeal) : Prop :=
  exists feed,
    feedparser_parse W feed_url = inr feed /\
    built_from W (firstn 10 (entries feed)) recs.

(** A computation that does not touch the progress bar. *)
Definition quiet {A} (m : M A) : Prop := without_bar (trace m) = trace m.

(** [r] is [s] without its leading and trailing whitespace. *)
Fixpoint all_space (s : string) : bool :=
  match s with
  | EmptyString => true
  | String c t => PyStr.isspace c && all_space t
  end.

Fixpoint last_or (c : ascii) (s : string) : ascii :=
  match s with
  | EmptyString => c
  | String c' t => last_or c' t
  end.

Definition trimmed (s : string) : bool :=
  match s with
  | EmptyString => true
  | String c t => negb (PyStr.isspace c) && negb (PyStr.isspace (last_or c t))
  end.

Definition is_strip_of (s r : string) : Prop :=
  exists l t : string,
    s = (l ++ r ++ t)%string /\
    all_space l = true /\ all_space t = true /\ trimmed r = true.

(** * Properties *)

(** ** The string operations on examples *)

Example split_three :
  PyStr.split "Features" "aFeaturesbFeaturesc"
  = Some ["a"; "b"; "c"]%string.
Proof. reflexivity. Qed.

Example split_overlapping :
  PyStr.split "aa" "aaaaa" = Some [""; ""; "a"]%string.
Proof. reflexivity. Qed.

Example split_empty_separator : PyStr.split "" "abc" = None.
Proof. reflexivity. Qed.

Example replace_overlapping : PyStr.replace "aa" "b" "aaaaa" = "bba"%string.
Proof. reflexivity. Qed.

Example replace_empty_old : PyStr.replace "" "-" "abc" = "-a-b-c-"%string.
Proof. reflexivity. Qed.

Example clean_content_more :
  clean_content ("intro" ++ PyStr.nl ++ "more" ++ PyStr.nl ++ "Features")
  = "intro Features"%string.
Proof. reflexivity. Qed.

Example strip_both : PyStr.strip "  a b  " = "a b"%string.
Proof. reflexivity. Qed.

Example sub_tags_plain :
  Re.sub_tags "a<b>c</b><>><i" = "ac<i"%string.
Proof. reflexivity. Qed.

Example sub_tags_one_pass :
  Re.sub_tags Fixture.nested_text2 = Fixture.nested_out.
Proof. reflexivity. Qed.

Example describe_scenario :
  describe Fixture.d_scenario
  = ("Title: Lamp" ++ PyStr.nl ++ "Details: ...intro text..." ++ PyStr.nl ++
     "Features: bullet one bullet two" ++ PyStr.nl ++
     "URL: http://site/lamp")%string.
Proof. reflexivity. Qed.

(** ** Strings *)

Module PyStrFacts.
Import PyStr.
Local Open Scope string_scope.

Lemma app_empty_r (s : string) : s ++ "" = s.
Proof. induction s as [|c t IH]; simpl; [reflexivity | now rewrite IH]. Qed.

Lemma app_assoc (a b c : string) : (a ++ b) ++ c = a ++ b ++ c.
Proof. induction a as [|x a IH]; simpl; [reflexivity | now rewrite IH]. Qed.

Lemma length_app (a b : string) :
  String.length (a ++ b) = String.length a + String.length b.
Proof. induction a as [|x a IH]; simpl; [reflexivity | now rewrite IH]. Qed.

Lemma app_inv_length (a a' b b' : string) :
  a ++ b = a' ++ b' -> String.length a = String.length a' ->
  a = a' /\ b = b'.
Proof.
  revert a'. induction a as [|x a IH]; intros [|y a'] E L;
    simpl in *; try discriminate; [now split|].
  injection E as -> E. injection L as L.
  destruct (IH _ E L) as [-> ->]. now split.
Qed.

Lemma drop_app (a b : string) : drop (String.length a) (a ++ b) = b.
Proof. induction a as [|x a IH]; simpl; [now destruct b | exact IH]. Qed.

Lemma drop_app_le (n : nat) (a b : string) :
  n <= String.length a -> drop n (a ++ b) = drop n a ++ b.
Proof.
  revert a. induction n as [|n IH]; intros [|x a] L; simpl in *;
    try reflexivity; try lia.
  apply IH. lia.
Qed.

Lemma prefix_app (sep b : string) : prefix sep (sep ++ b) = true.
Proof.
  induction sep as [|x sep IH]; simpl; [now destruct b|].
  destruct (ascii_dec x x); [exact IH | contradiction].
Qed.

Lemma prefix_inv (sep s : string) :
  prefix sep s = true -> s = sep ++ drop (String.length sep) s.
Proof.
  revert s. induction sep as [|x sep IH]; intros [|y s] H; simpl in *;
    try reflexivity; try discriminate.
  destruct (ascii_dec x y) as [->|]; [|discriminate].
  f_equal. now apply IH.
Qed.

Lemma prefix_empty (sep : string) : sep <> "" -> prefix sep "" = false.
Proof. destruct sep; [contradiction | reflexivity]. Qed.

Lemma contains_cons (sub : string) (c : ascii) (t : string) :
  contains sub (String c t) = prefix sub (String c t) || contains sub t.
Proof. reflexivity. Qed.

Lemma contains_prefix (sub s : string) :
  prefix sub s = true -> contains sub s = true.
Proof. intros H. destruct s; cbn [contains]; now rewrite H. Qed.

Lemma contains_app (sub a b : string) : contains sub (a ++ sub ++ b) = true.
Proof.
  induction a as [|x a IH].
  - cbn [append]. apply contains_prefix, prefix_app.
  - simpl append. rewrite contains_cons, IH. apply orb_true_r.
Qed.

Lemma contains_app_r (sub a b : string) :
  contains sub b = true -> contains sub (a ++ b) = true.
Proof.
  intros H. induction a as [|x a IH]; [exact H|].
  simpl append. rewrite contains_cons, IH. apply orb_true_r.
Qed.

Lemma contains_inv (sub s : string) :
  contains sub s = true -> exists a b, s = a ++ sub ++ b.
Proof.
  induction s as [|c t IH]; intros H.
  - cbn [contains] in H. rewrite orb_false_r in H.
    exists "", "". destruct sub; [reflexivity | discriminate H].
  - rewrite contains_cons in H. apply orb_true_iff in H as [H|H].
    + exists "", (drop (String.length sub) (String c t)).
      now apply prefix_inv.
    + destruct (IH H) as (a & b & ->). now exists (String c a), b.
Qed.

Lemma endswith_app (suffix a : string) : endswith suffix (a ++ suffix) = true.
Proof.
  induction a as [|x a IH]; simpl.
  - destruct suffix; simpl; [reflexivity|].
    now rewrite Ascii.eqb_refl, String.eqb_refl.
  - rewrite IH. apply orb_true_r.
Qed.

Lemma endswith_inv (suffix s : string) :
  endswith suffix s = true -> exists a, s = a ++ suffix.
Proof.
  induction s as [|c t IH]; intros H.
  - simpl in H. rewrite orb_false_r in H. apply String.eqb_eq in H.
    exists "". now subst.
  - cbn [endswith] in H. apply orb_true_iff in H as [H|H].
    + apply String.eqb_eq in H. exists "". now subst.
    + destruct (IH H) as (a & ->). now exists (String c a).
Qed.

(** *** The scanners *)

Lemma split_go_cons (sep : string) (c : ascii) (t : string) :
  split_go sep 0 (String c t) =
  if prefix sep (String c t)
  then ("", parts (split_go sep (String.length sep - 1) t))
  else let (h, r) := split_go sep 0 t in (String c h, r).
Proof. reflexivity. Qed.

Lemma split_go_skip (sep : string) (k : nat) (s : string) :
  split_go sep k s = split_go sep 0 (drop k s).
Proof.
  revert k. induction s as [|c t IH]; intros [|k]; try reflexivity.
  cbn [split_go drop]. apply IH.
Qed.

Lemma drop_pred (sep : string) (c : ascii) (t : string) :
  sep <> "" ->
  drop (String.length sep - 1) t = drop (String.length sep) (String c t).
Proof.
  destruct sep as [|x sep]; [contradiction|]. intros _.
  cbn [String.length drop]. now rewrite Nat.sub_1_r.
Qed.

(** A text without the separator is one segment. *)
Lemma split_go_absent (sep s : string) :
  contains sep s = false -> split_go sep 0 s = (s, []%list).
Proof.
  induction s as [|c t IH]; intros H; [reflexivity|].
  rewrite contains_cons in H. apply orb_false_iff in H as [H1 H2].
  rewrite split_go_cons, H1, (IH H2). reflexivity.
Qed.

(** A text with the separator is cut at its first occurrence, and the
    scan goes on behind it. *)
Lemma split_go_found (sep : string) (Hsep : sep <> "") (s : string) :
  contains sep s = true ->
  exists h rest,
    s = h ++ sep ++ rest /\
    split_go sep 0 s = (h, parts (split_go sep 0 rest)) /\
    forall a b, s = a ++ sep ++ b -> String.length h <= String.length a.
Proof.
  induction s as [|c t IH]; intros H.
  - cbn [contains] in H. now rewrite (prefix_empty _ Hsep) in H.
  - rewrite contains_cons in H. rewrite split_go_cons.
    destruct (prefix sep (String c t)) eqn:P.
    + exists "", (drop (String.length sep) (String c t)). repeat split.
      * cbn [append]. now apply prefix_inv.
      * now rewrite split_go_skip, (drop_pred sep c t Hsep).
      * intros; cbn; lia.
    + cbn [orb] in H. destruct (IH H) as (h & rest & -> & E & F).
      exists (String c h), rest. repeat split.
      * now rewrite E.
      * intros [|x a] b Eq.
        -- cbn [append] in Eq. rewrite Eq, prefix_app in P. discriminate.
        -- cbn [append] in Eq. injection Eq as -> Eq.
           cbn [String.length]. apply le_n_S. now apply (F a b).
Qed.

Lemma replace_go_cons (old new : string) (c : ascii) (t : string) :
  replace_go old new 0 (String c t) =
  if prefix old (String c t)
  then new ++ replace_go old new (String.length old - 1) t
  else String c (replace_go old new 0 t).
Proof. reflexivity. Qed.

(** Replacing one character by one character is a character-wise map. *)
Lemma replace_char (a b : ascii) (s : string) :
  replace (String a "") (String b "") s =
  smap (fun c => if Ascii.eqb c a then b else c) s.
Proof.
  unfold replace. induction s as [|c t IH]; [reflexivity|].
  rewrite replace_go_cons. cbn [prefix String.length Nat.sub smap append].
  destruct (ascii_dec a c) as [<-|N].
  - rewrite Ascii.eqb_refl. destruct t; now rewrite IH.
  - apply Ascii.eqb_neq in N. rewrite Ascii.eqb_sym in N. now rewrite N, IH.
Qed.

Lemma replace_nl (s : string) : replace nl sp s = smap nl_to_sp s.
Proof. apply replace_char. Qed.

Lemma smap_nl_to_sp_idem (s : string) :
  smap nl_to_sp (smap nl_to_sp s) = smap nl_to_sp s.
Proof.
  induction s as [|c t IH]; [reflexivity|]. cbn [smap]. rewrite IH.
  f_equal. unfold nl_to_sp. destruct (Ascii.eqb c LF) eqn:E;
    [reflexivity | now rewrite E].
Qed.

End PyStrFacts.

(** ** The content split *)

Section ContentSplit.
Import PyStr PyStrFacts.
Local Open Scope string_scope.

Local Notation "'marker'" := ("Features"%string).

(** Two strings with a common extension: the shorter is a prefix of the
    longer. *)
Lemma app_eq_app_le (h u a v : string) :
  h ++ u = a ++ v -> String.length h <= String.length a ->
  exists y, a = h ++ y /\ u = y ++ v.
Proof.
  revert a. induction h as [|x h IH]; intros a E L.
  - exists a. now split.
  - destruct a as [|x' a]; [cbn in L; lia|].
    cbn [append] in E. injection E as -> E.
    destruct (IH a E) as (y & -> & ->); [cbn in L; lia|].
    now exists y.
Qed.

(** No occurrence of the marker starts inside another one. *)
Lemma marker_no_overlap (y b : string) :
  prefix marker (y ++ marker ++ b) = true ->
  y = "" \/ 8 <= String.length y.
Proof.
  intros H. apply prefix_inv in H.
  destruct y as [|c1 y]; [now left | right].
  do 7 (destruct y as [|? y]; [exfalso; cbn in H; congruence|]).
  cbn [String.length]. lia.
Qed.

(** What lies behind the first occurrence when a later one is known. *)
Lemma marker_rest (y rest b : string) :
  marker ++ rest = y ++ marker ++ b ->
  (y = "" /\ rest = b) \/ rest = drop 8 y ++ marker ++ b.
Proof.
  intros E.
  assert (P : prefix marker (y ++ marker ++ b) = true)
    by (rewrite <- E; apply prefix_app).
  destruct (marker_no_overlap _ _ P) as [-> | L].
  - left. split; [reflexivity|]. cbn [append] in E.
    apply (app_inv_length marker marker rest b E eq_refl).
  - right. rewrite <- (drop_app marker rest).
    change (String.length marker) with 8. rewrite E.
    now apply drop_app_le.
Qed.

Lemma split_content_absent (content : string) :
  contains marker content = false ->
  split_content content = inr (content, "").
Proof. intros H. unfold split_content. now rewrite H. Qed.

(** When the split succeeds on a text with the marker, it is the cut at
    the first occurrence, and there is no second one. *)
Lemma split_content_found (content d f : string) :
  contains marker content = true ->
  split_content content = inr (d, f) ->
  content = d ++ marker ++ f /\
  (forall a b, content = a ++ marker ++ b ->
               String.length d <= String.length a) /\
  contains marker f = false.
Proof.
  intros H S. unfold split_content in S. rewrite H in S.
  destruct (split_go_found marker ltac:(discriminate) content H)
    as (h & rest & E & G & F).
  unfold split in S.
  rewrite G in S. cbn [parts] in S.
  destruct (contains marker rest) eqn:R.
  - destruct (split_go_found marker ltac:(discriminate) rest R)
      as (h2 & rest2 & _ & G2 & _).
    rewrite G2 in S. cbn [parts] in S.
    destruct (split_go marker 0 rest2); discriminate S.
  - rewrite (split_go_absent _ _ R) in S. cbn [parts] in S.
    injection S as <- <-. auto.
Qed.

(** A text with exactly one occurrence of the marker is split. *)
Lemma split_content_once (d f : string) :
  (forall a b, d ++ marker ++ f = a ++ marker ++ b ->
               String.length d <= String.length a) ->
  contains marker f = false ->
  split_content (d ++ marker ++ f) = inr (d, f).
Proof.
  intros First R.
  pose proof (contains_app marker d f) as H.
  destruct (split_go_found marker ltac:(discriminate) _ H)
    as (h & rest & E & G & F).
  assert (L : String.length d = String.length h).
  { apply Nat.le_antisymm; [now apply (First h rest) | now apply (F d f)]. }
  destruct (app_inv_length _ _ _ _ E L) as [<- E'].
  destruct (app_inv_length marker marker f rest E' eq_refl) as [_ <-].
  unfold split_content. rewrite H.
  unfold split.
  now rewrite G, (split_go_absent _ _ R).
Qed.

(** A text with the marker and, behind it, the marker again is not
    split: the unpacking fails. *)
Lemma split_content_twice (a b : string) :
  contains marker b = true ->
  split_content (a ++ marker ++ b) = inl ValueError.
Proof.
  intros Hb.
  pose proof (contains_app marker a b) as H.
  destruct (split_go_found marker ltac:(discriminate) _ H)
    as (h & rest & E & G & F).
  assert (R : contains marker rest = true).
  { destruct (app_eq_app_le _ _ _ _ (eq_sym E) (F a b eq_refl))
      as (y & _ & E2).
    destruct (marker_rest _ _ _ E2) as [[_ ->] | ->];
      [exact Hb | apply contains_app]. }
  destruct (split_go_found marker ltac:(discriminate) rest R)
    as (h2 & rest2 & _ & G2 & _).
  unfold split_content. rewrite H.
  unfold split.
  rewrite G, G2. cbn [parts].
  now destruct (split_go marker 0 rest2).
Qed.

(** The second part is empty exactly when the marker is absent or ends
    the text. *)
Lemma split_content_features_empty (content d f : string) :
  split_content content = inr (d, f) ->
  f = "" <->
  contains marker content = false \/ endswith marker content = true.
Proof.
  intros S. destruct (contains marker content) eqn:H.
  - destruct (split_content_found _ _ _ H S) as (E & F & R). split.
    + intros ->. right. rewrite E. apply endswith_app.
    + intros [? | W]; [discriminate|].
      destruct (endswith_inv _ _ W) as (x & Ex).
      assert (Ex' : content = x ++ marker ++ "")
        by now rewrite app_empty_r.
      pose proof (F x "" Ex') as L.
      rewrite E in Ex'.
      destruct (app_eq_app_le _ _ _ _ Ex' L) as (y & _ & E2).
      destruct (marker_rest _ _ _ E2) as [[_ ->] | ->];
        [reflexivity|].
      now rewrite contains_app in R.
  - rewrite (split_content_absent _ H) in S. injection S as _ <-.
    split; auto.
Qed.

End ContentSplit.

(** ** Computations *)

Section Computations.
Context {A B C : Type}.

Lemma outcome_bind (m : M A) (f : A -> M B) :
  outcome (bind m f) =
  match outcome m with
  | inl e => inl e
  | inr a => outcome (f a)
  end.
Proof.
  destruct m as [t [e|a]]; [reflexivity|].
  cbn. now destruct (f a).
Qed.

Lemma trace_bind (m : M A) (f : A -> M B) :
  trace (bind m f) =
  trace m ++ match outcome m with
             | inl _ => []
             | inr a => trace (f a)
             end.
Proof.
  destruct m as [t [e|a]]; cbn; [now rewrite app_nil_r|].
  now destruct (f a).
Qed.

Lemma bind_assoc (m : M A) (f : A -> M B) (g : B -> M C) :
  bind (bind m f) g = bind m (fun a => bind (f a) g).
Proof.
  destruct m as [t [e|a]]; [reflexivity|]. cbn.
  destruct (f a) as [t2 [e|b]]; cbn; [reflexivity|].
  destruct (g b) as [t3 r]. now rewrite app_assoc.
Qed.

Lemma outcome_lift (r : exn + A) : outcome (lift r) = r.
Proof. reflexivity. Qed.

Lemma outcome_emit (ev : event) (m : M A) :
  outcome (emit ev ;;; m) = outcome m.
Proof. cbn. now destruct m. Qed.

Lemma trace_emit (ev : event) (m : M A) :
  trace (emit ev ;;; m) = ev :: trace m.
Proof. cbn. now destruct m. Qed.

End Computations.

Section Loops.
Context {X St : Type} (body : X -> St -> M St).

Lemma for_each_app (xs ys : list X) (s : St) :
  for_each (xs ++ ys) body s = bind (for_each xs body s) (for_each ys body).
Proof.
  revert s. induction xs as [|x xs IH]; intros s; cbn [for_each app].
  - unfold bind, ret. destruct (for_each ys body s). reflexivity.
  - destruct (body x s) as [t [e|s']]; cbn [bind]; [reflexivity|].
    rewrite IH. unfold bind.
    destruct (for_each xs body s') as [t2 [e|s2]]; [reflexivity|].
    destruct (for_each ys body s2). now rewrite app_assoc.
Qed.

End Loops.

(** ** Stripping *)

Section Strip.
Import PyStr PyStrFacts.
Local Open Scope string_scope.

Lemma lstrip_spec (s : string) :
  exists l, s = l ++ lstrip s /\ all_space l = true /\
            match lstrip s with
            | "" => True
            | String c _ => isspace c = false
            end.
Proof.
  induction s as [|c t (l & E & Sp & Hd)].
  - exists "". now repeat split.
  - cbn [lstrip]. destruct (isspace c) eqn:W.
    + exists (String c l). cbn [append all_space]. rewrite W, Sp.
      repeat split; [now rewrite <- E | exact Hd].
    + exists "". now repeat split.
Qed.

Lemma rstrip_spec (s : string) :
  exists r, s = rstrip s ++ r /\ all_space r = true.
Proof.
  induction s as [|c t (r & E & Sp)].
  - exists "". now split.
  - cbn [rstrip]. destruct (isspace c && is_empty (rstrip t)) eqn:W.
    + apply andb_true_iff in W as [W1 W2].
      exists (String c r). cbn [append all_space]. rewrite W1, Sp.
      split; [|reflexivity]. destruct (rstrip t); [|discriminate].
      now rewrite E at 1.
    + exists r. cbn [append]. split; [now rewrite <- E | exact Sp].
Qed.

Lemma rstrip_last (s : string) (c : ascii) (t : string) :
  rstrip s = String c t -> isspace (last_or c t) = false.
Proof.
  revert c t. induction s as [|x s IH]; intros c t E; [discriminate|].
  cbn [rstrip] in E. destruct (isspace x && is_empty (rstrip s)) eqn:W;
    [discriminate|].
  injection E as -> <-. destruct (rstrip s) as [|c' t'] eqn:R.
  - cbn in *. now rewrite andb_true_r in W.
  - cbn [last_or]. now apply IH.
Qed.

Lemma last_or_app (l : string) (x c : ascii) (t : string) :
  last_or x (l ++ String c t) = last_or c t.
Proof. revert x. induction l as [|y l IH]; intros x; cbn; auto. Qed.

(** [strip] removes whitespace at both ends and nothing else. *)
Lemma strip_is_strip (s : string) : is_strip_of s (strip s).
Proof.
  unfold strip, is_strip_of.
  destruct (rstrip_spec s) as (r & Er & Sr).
  destruct (lstrip_spec (rstrip s)) as (l & El & Sl & Hd).
  exists l, r. repeat split; try assumption.
  - rewrite <- app_assoc, <- El. exact Er.
  - destruct (lstrip (rstrip s)) as [|c t] eqn:L; [reflexivity|].
    cbn [trimmed]. rewrite Hd. cbn [negb andb].
    destruct (rstrip s) as [|c0 t0] eqn:R.
    + destruct l; discriminate El.
    + pose proof (rstrip_last s c0 t0 R) as Last.
      assert (E0 : last_or c0 (String c0 t0) = last_or c t).
      { rewrite El. destruct l as [|y l]; cbn [append last_or].
        - reflexivity.
        - apply last_or_app. }
      cbn [last_or] in E0. now rewrite <- E0, Last.
Qed.

End Strip.

(** ** Computations that leave the bar alone *)

Section Quiet.
Context {A B : Type}.

Lemma without_bar_app (t1 t2 : list event) :
  without_bar (t1 ++ t2) = without_bar t1 ++ without_bar t2.
Proof. apply filter_app. Qed.

Lemma quiet_bind (m : M A) (f : A -> M B) :
  quiet m -> (forall a, quiet (f a)) -> quiet (bind m f).
Proof.
  unfold quiet. intros Hm Hf. rewrite trace_bind, without_bar_app, Hm.
  f_equal. destruct (outcome m); [reflexivity | apply Hf].
Qed.

Lemma quiet_ret (a : A) : quiet (ret a).
Proof. reflexivity. Qed.

Lemma quiet_lift (r : exn + A) : quiet (lift r).
Proof. reflexivity. Qed.

End Quiet.

(** ** The constructor *)

Section Constructor.
Variable W : World.

(** The outcome of [__init__], statement by statement. *)
Lemma init_outcome (entry : Entry) :
  outcome (ScrapedDeal_init W entry) =
  match e_title entry with
  | None => inl (KeyError "title")
  | Some t =>
  match e_summary entry with
  | None => inl (KeyError "summary")
  | Some raw =>
  match e_links entry with
  | None => inl (KeyError "links")
  | Some [] => inl IndexError
  | Some (link :: _) =>
  match href link with
  | None => inl (KeyError "href")
  | Some u =>
  match requests_get W u with
  | inl e => inl e
  | inr stuff =>
  match page_content W stuff with
  | inl e => inl e
  | inr content =>
  match split_content content with
  | inl e => inl e
  | inr parts =>
      inr (mkScrapedDeal t (extract W raw) u (fst parts) (snd parts))
  end end end end end end end.
Proof.
  unfold ScrapedDeal_init.
  destruct (e_title entry) as [t|]; [|reflexivity].
  destruct (e_summary entry) as [raw|]; [|reflexivity].
  destruct (e_links entry) as [[|link links]|]; try reflexivity.
  cbn -[extract page_content split_content].
  destruct (href link) as [u|]; [|reflexivity].
  cbn -[extract page_content split_content].
  destruct (requests_get W u) as [e|stuff]; [reflexivity|].
  cbn -[extract page_content split_content].
  destruct (page_content W stuff) as [e|content]; [reflexivity|].
  cbn -[extract page_content split_content].
  destruct (split_content content); reflexivity.
Qed.

(** A record that was built comes from one page and one split of its
    content. *)
Lemma init_inv (entry : Entry) (d : ScrapedDeal) :
  outcome (ScrapedDeal_init W entry) = inr d ->
  exists stuff content,
    requests_get W (url d) = inr stuff /\
    page_content W stuff = inr content /\
    split_content content = inr (details d, features d).
Proof.
  rewrite init_outcome. intros H.
  destruct (e_title entry); [|discriminate].
  destruct (e_summary entry); [|discriminate].
  destruct (e_links entry) as [[|link links]|]; try discriminate.
  destruct (href link) as [u|]; [|discriminate].
  destruct (requests_get W u) as [|stuff] eqn:G; [discriminate|].
  destruct (page_content W stuff) as [|content] eqn:P; [discriminate|].
  destruct (split_content content) as [|[dt ft]] eqn:S; [discriminate|].
  injection H as <-. cbn. exists stuff, content. auto.
Qed.

(** The trace of [__init__] has no bar event. *)
Lemma init_quiet (entry : Entry) : quiet (ScrapedDeal_init W entry).
Proof.
  unfold ScrapedDeal_init.
  repeat (apply quiet_bind; [|intros ?]);
    try apply quiet_ret; try apply quiet_lift;
    try (match goal with |- quiet (getitem _ ?o) => destruct o end);
    try (match goal with |- quiet (first_item ?l) => destruct l end);
    reflexivity.
Qed.

End Constructor.

(** ** The loops of [fetch] *)

Create HintDb quiet.
#[local] Hint Resolve quiet_ret quiet_lift init_quiet : quiet.

Section FetchLoops.
Variable W : World.

Lemma for_each_quiet {X St} (body : X -> St -> M St) (xs : list X) (s : St) :
  (forall x s, quiet (body x s)) -> quiet (for_each xs body s).
Proof.
  intros Hb. revert s. induction xs as [|x xs IH]; intros s; cbn [for_each].
  - apply quiet_ret.
  - apply quiet_bind; auto.
Qed.

Lemma fetch_entry_quiet (entry : Entry) (ds : list ScrapedDeal) :
  quiet (fetch_entry W entry ds).
Proof.
  unfold fetch_entry. apply quiet_bind; [auto with quiet|].
  intros d. apply quiet_bind; [reflexivity | auto with quiet].
Qed.

Lemma fetch_feed_quiet (u : string) (ds : list ScrapedDeal) :
  quiet (fetch_feed W u ds).
Proof.
  unfold fetch_feed. apply quiet_bind; [reflexivity|]. intros _.
  apply quiet_bind; [auto with quiet|]. intros feed.
  apply for_each_quiet, fetch_entry_quiet.
Qed.

(** Iterating through the bar runs the same body on the same elements. *)
Lemma for_each_bar_same {X St} (body : X -> St -> M St)
  (Hq : forall x s, quiet (body x s)) (xs : list X) :
  forall (done total : nat) (s : St),
    outcome (for_each_bar done total xs body s)
    = outcome (for_each xs body s) /\
    without_bar (trace (for_each_bar done total xs body s))
    = trace (for_each xs body s).
Proof.
  induction xs as [|x xs IH]; intros done total s;
    cbn [for_each_bar for_each].
  - now split.
  - rewrite outcome_emit, trace_emit, outcome_bind, trace_bind.
    rewrite outcome_bind, trace_bind.
    change (without_bar (Bar done total :: ?t)) with (without_bar t).
    rewrite without_bar_app, (Hq x s).
    destruct (outcome (body x s)) as [e|s1]; [now split|].
    destruct (IH (S done) total s1) as [IH1 IH2]. now rewrite IH1, IH2.
Qed.

Lemma fetch_entry_outcome (entry : Entry) (ds : list ScrapedDeal) :
  outcome (fetch_entry W entry ds) =
  match outcome (ScrapedDeal_init W entry) with
  | inl e => inl e
  | inr d => inr (ds ++ [d])
  end.
Proof.
  unfold fetch_entry. rewrite outcome_bind.
  now destruct (outcome (ScrapedDeal_init W entry)).
Qed.

Lemma fetch_feed_outcome (u : string) (ds : list ScrapedDeal) :
  outcome (fetch_feed W u ds) =
  match feedparser_parse W u with
  | inl e => inl e
  | inr feed =>
      outcome (for_each (firstn 10 (entries feed)) (fetch_entry W) ds)
  end.
Proof.
  unfold fetch_feed. rewrite outcome_bind. cbn [emit outcome snd].
  rewrite outcome_bind, outcome_lift.
  now destruct (feedparser_parse W u).
Qed.

Lemma fetch_from_outcome (feed_urls : list string) (b : bool) :
  outcome (fetch_from W feed_urls b)
  = outcome (for_each feed_urls (fetch_feed W) []).
Proof.
  unfold fetch_from. rewrite outcome_bind. destruct b.
  - unfold for_each_tqdm.
    destruct (for_each_bar_same _ fetch_feed_quiet feed_urls 0
                (length feed_urls) []) as [-> _].
    now destruct (outcome (for_each feed_urls (fetch_feed W) [])).
  - now destruct (outcome (for_each feed_urls (fetch_feed W) [])).
Qed.

(** The inner loop returns exactly when every entry is built, and then
    appends the records in entry order. *)
Lemma entries_loop (es : list Entry) :
  forall ds0 ds,
    outcome (for_each es (fetch_entry W) ds0) = inr ds <->
    exists recs, built_from W es recs /\ ds = ds0 ++ recs.
Proof.
  unfold built_from.
  induction es as [|e es IH]; intros ds0 ds; cbn [for_each].
  - split.
    + intros H. injection H as <-. exists []. split; [constructor|].
      now rewrite app_nil_r.
    + intros (recs & F & ->). inversion F. cbn. now rewrite app_nil_r.
  - rewrite outcome_bind, fetch_entry_outcome.
    destruct (outcome (ScrapedDeal_init W e)) as [x|d] eqn:I.
    + split; [discriminate|]. intros (recs & F & _). inversion F; congruence.
    + rewrite IH. split.
      * intros (recs & F & ->). exists (d :: recs). split.
        -- now constructor.
        -- now rewrite <- app_assoc.
      * intros (recs & F & ->). inversion F as [|? d' ? recs' I' F']; subst.
        assert (d' = d) as -> by congruence.
        exists recs'. split; [assumption | now rewrite <- app_assoc].
Qed.

(** The outer loop returns exactly when every feed is parsed and all its
    first ten entries are built, and then appends feed after feed. *)
Lemma feeds_loop (feed_urls : list string) :
  forall ds0 ds,
    outcome (for_each feed_urls (fetch_feed W) ds0) = inr ds <->
    exists per_feed,
      Forall2 (feed_records W) feed_urls per_feed /\
      ds = ds0 ++ concat per_feed.
Proof.
  induction feed_urls as [|u us IH]; intros ds0 ds; cbn [for_each].
  - split.
    + intros H. injection H as <-. exists []. split; [constructor|].
      now rewrite app_nil_r.
    + intros (pf & F & ->). inversion F. cbn. now rewrite app_nil_r.
  - rewrite outcome_bind, fetch_feed_outcome. split.
    + destruct (feedparser_parse W u) as [x|feed] eqn:P; [discriminate|].
      destruct (outcome (for_each (firstn 10 (entries feed))
                           (fetch_entry W) ds0)) as [x|ds1] eqn:L;
        [discriminate|].
      apply entries_loop in L as (recs & B & ->).
      intros H. apply IH in H as (pf & F & ->).
      exists (recs :: pf). split.
      * constructor; [now exists feed | assumption].
      * cbn [concat]. now rewrite <- app_assoc.
    + intros (pf & F & ->).
      inversion F as [|? recs ? pf' (feed & P & B) F']; subst.
      rewrite P.
      assert (L : outcome (for_each (firstn 10 (entries feed))
                             (fetch_entry W) ds0) = inr (ds0 ++ recs))
        by (apply entries_loop; now exists recs).
      rewrite L. apply IH. exists pf'. split; [assumption|].
      cbn [concat]. now rewrite <- app_assoc.
Qed.

End FetchLoops.

(** ** The fallback of [extract] *)

Lemma extract_fallback (W : World) (s : string) :
  soup_find_div W s "snippet summary" = None ->
  extract W s = PyStr.smap PyStr.nl_to_sp s.
Proof.
  intros H. unfold extract. rewrite H. apply PyStrFacts.replace_nl.
Qed.

(** ** Exceptions in the loops *)

Section Propagation.
Variable W : World.

Lemma for_each_raise {X St} (body : X -> St -> M St) (xs ys : list X)
  (x : X) (s s1 : St) (e : exn) :
  outcome (for_each xs body s) = inr s1 ->
  outcome (body x s1) = inl e ->
  outcome (for_each (xs ++ x :: ys) body s) = inl e.
Proof.
  intros H1 H2. rewrite for_each_app, outcome_bind, H1.
  cbn [for_each]. now rewrite outcome_bind, H2.
Qed.

(** The three ways of failing behind the feed entry itself. *)
Lemma init_page_unreachable (t raw u : string) (links : list Link) (e : exn) :
  requests_get W u = inl e ->
  outcome (ScrapedDeal_init W
             (mkEntry (Some t) (Some raw) (Some (mkLink (Some u) :: links))))
  = inl e.
Proof. intros H. rewrite init_outcome. cbn. now rewrite H. Qed.

Lemma init_no_content_section (t raw u stuff : string) (links : list Link) :
  requests_get W u = inr stuff ->
  soup_find_div W stuff "content-section" = None ->
  outcome (ScrapedDeal_init W
             (mkEntry (Some t) (Some raw) (Some (mkLink (Some u) :: links))))
  = inl AttributeError.
Proof.
  intros H1 H2. rewrite init_outcome. cbn -[page_content].
  rewrite H1. unfold page_content. now rewrite H2.
Qed.

Lemma init_marker_twice (t raw u stuff a b : string) (links : list Link) :
  requests_get W u = inr stuff ->
  page_content W stuff = inr (a ++ "Features" ++ b)%string ->
  PyStr.contains "Features" b = true ->
  outcome (ScrapedDeal_init W
             (mkEntry (Some t) (Some raw) (Some (mkLink (Some u) :: links))))
  = inl ValueError.
Proof.
  intros H1 H2 H3. rewrite init_outcome. cbn -[page_content split_content].
  now rewrite H1, H2, (split_content_twice a b H3).
Qed.

End Propagation.

(** * The claims *)

Section Claims.
Import PyStr PyStrFacts.

(** C1.  The claim: on every page text that contains "Features" the split
    puts the text before the first occurrence in [details] and the text
    behind it in [features], also when the marker occurs several times.
    On the text "aFeaturesbFeaturesc", which is "a", the marker and
    "bFeaturesc", the split raises [ValueError] instead, and so does the
    constructor on an entry whose page has that text. *)
Theorem split_content_second_marker :
  Fixture.text_twice = ("a" ++ "Features" ++ "bFeaturesc")%string /\
  contains "Features" Fixture.text_twice = true /\
  split_content Fixture.text_twice = inl ValueError /\
  outcome (ScrapedDeal_init Fixture.site Fixture.e_twice) = inl ValueError.
Proof. repeat split; vm_compute; reflexivity. Qed.

(** C2, as stated, fails: the page of the entry [e_trailing] has the
    content "introFeatures"; the record is built, the marker was found,
    and [features] is empty. *)
Lemma features_empty_with_marker :
  exists d,
    outcome (ScrapedDeal_init Fixture.site Fixture.e_trailing) = inr d /\
    page_content Fixture.site (Fixture.page Fixture.text_trailing)
    = inr Fixture.text_trailing /\
    contains "Features" Fixture.text_trailing = true /\
    features d = ""%string.
Proof.
  exists (mkScrapedDeal "Desk" "A desk" "http://site/desk" "intro" "").
  repeat split; vm_compute; reflexivity.
Qed.

(** C2, amended.  For every record the constructor builds, [details] and
    [features] are the two components of one split of the cleaned content
    of the page at the record's url, and [features] is empty if and only if
    the marker "Features" is absent from that content or ends it. *)
Theorem init_details_features (W : World) (entry : Entry) (d : ScrapedDeal) :
  outcome (ScrapedDeal_init W entry) = inr d ->
  exists stuff content,
    requests_get W (url d) = inr stuff /\
    page_content W stuff = inr content /\
    split_content content = inr (details d, features d) /\
    (features d = ""%string <->
     contains "Features" content = false \/
     endswith "Features" content = true).
Proof.
  intros H. destruct (init_inv W entry d H) as (stuff & content & G & P & S).
  exists stuff, content. repeat split; try assumption.
  - now apply (split_content_features_empty content (details d)).
  - now apply (split_content_features_empty content (details d)).
Qed.

(** C3, as stated, fails: of the two feeds below the first has three
    entries, which are built when it is fetched alone, and the parser
    raises on the second; the run over both ends with that exception and
    returns no record. *)
Lemma fetch_aborts_on_failing_feed :
  (exists ds,
     outcome (fetch_from Fixture.site ["http://feed/three"%string] false)
     = inr ds /\ length ds = 3) /\
  outcome (fetch_from Fixture.site
             ["http://feed/three"; "http://feed/down"]%string false)
  = inl (LibError "RemoteDisconnected").
Proof.
  split; [|vm_compute; reflexivity].
  eexists. split; vm_compute; reflexivity.
Qed.

(** C3, amended.  Whenever the driver returns, every feed of the list was
    parsed and contributes the records built from its first ten entries,
    one per entry and in entry order (none for a feed without entries); the
    result is these lists in feed order, no feed contributes more than 10
    records, and the number of records is the sum of the contributions. *)
Theorem fetch_from_records (W : World) (feed_urls : list string)
  (show_progress : bool) (ds : list ScrapedDeal) :
  outcome (fetch_from W feed_urls show_progress) = inr ds ->
  exists per_feed,
    Forall2 (feed_records W) feed_urls per_feed /\
    ds = concat per_feed /\
    Forall (fun recs => length recs <= 10) per_feed /\
    length ds = list_sum (map (@length ScrapedDeal) per_feed).
Proof.
  rewrite fetch_from_outcome. intros H.
  apply feeds_loop in H as (pf & F & ->). cbn [app].
  exists pf. repeat split; [assumption| |].
  - clear -F. induction F as [|u recs us pf (feed & _ & B) F IH];
      constructor; [|exact IH].
    unfold built_from in B. rewrite <- (Forall2_length B).
    rewrite length_firstn. apply Nat.le_min_l.
  - clear. induction pf as [|recs pf IH]; [reflexivity|].
    cbn [concat map list_sum]. now rewrite List.length_app, IH.
Qed.

(** C4, as stated, fails: for the page of the scenario the stored
    [features] keeps its leading space. *)
Lemma stored_features_not_stripped :
  exists d,
    outcome (ScrapedDeal_init Fixture.site Fixture.e_scenario) = inr d /\
    details d = "...intro text..."%string /\
    features d = " bullet one bullet two"%string /\
    strip (features d) = "bullet one bullet two"%string /\
    features d <> strip (features d).
Proof.
  eexists. split; [vm_compute; reflexivity|].
  repeat split; try (vm_compute; reflexivity).
  vm_compute. discriminate.
Qed.

(** C4, amended.  The constructor stores the two components of the split
    as they are; [describe] renders the record with [details] and
    [features] stripped of their leading and trailing whitespace. *)
Theorem init_stores_describe_strips (W : World) (entry : Entry)
  (d : ScrapedDeal) :
  outcome (ScrapedDeal_init W entry) = inr d ->
  (exists stuff content,
     requests_get W (url d) = inr stuff /\
     page_content W stuff = inr content /\
     split_content content = inr (details d, features d)) /\
  exists D F : string,
    describe d =
    ("Title: " ++ title d ++ nl ++ "Details: " ++ D ++ nl ++
     "Features: " ++ F ++ nl ++ "URL: " ++ url d)%string /\
    is_strip_of (details d) D /\ is_strip_of (features d) F.
Proof.
  intros H. split; [now apply (init_inv W entry)|].
  exists (strip (details d)), (strip (features d)).
  split; [reflexivity|]. split; apply strip_is_strip.
Qed.

(** C5.  On an input in which no snippet-summary element is found,
    [extract] (a total function: nothing is raised) returns the input with
    every newline replaced by a space and nothing else changed. *)
Theorem extract_without_container (W : World) (s : string) :
  soup_find_div W s "snippet summary" = None ->
  extract W s = smap nl_to_sp s.
Proof. apply extract_fallback. Qed.

(** C6, as stated, fails: the text of the summary below, after the two
    parses and the expression, is the markup of a snippet-summary element,
    and normalizing that result gives its text, "hello". *)
Lemma extract_not_idempotent :
  extract Fixture.snippets Fixture.nested_snippet = Fixture.nested_out /\
  extract Fixture.snippets
    (extract Fixture.snippets Fixture.nested_snippet) = "hello"%string /\
  extract Fixture.snippets (extract Fixture.snippets Fixture.nested_snippet)
  <> extract Fixture.snippets Fixture.nested_snippet.
Proof.
  repeat split; try (vm_compute; reflexivity). vm_compute. discriminate.
Qed.

(** C6, amended.  Whenever no snippet-summary element is found in the
    result of normalizing [s] (as for a result that is plain text),
    normalizing that result yields it again. *)
Theorem extract_idempotent_without_container (W : World) (s : string) :
  soup_find_div W (extract W s) "snippet summary" = None ->
  extract W (extract W s) = extract W s.
Proof.
  intros H. rewrite (extract_fallback W (extract W s) H).
  unfold extract. rewrite replace_nl. apply smap_nl_to_sp_idem.
Qed.







(** C9.  For every feed list the run with the progress bar and the run
    without it end alike, with the same records in the same order or with
    the same exception; what the two runs do differs in the updates of the
    bar and in nothing else, and the run with the bar does update it. *)
Theorem show_progress_same_records (W : World) (feed_urls : list string) :
  outcome (fetch_from W feed_urls true)
  = outcome (fetch_from W feed_urls false) /\
  without_bar (trace (fetch_from W feed_urls true))
  = trace (fetch_from W feed_urls false) /\
  exists t,
    trace (fetch_from W feed_urls true) = Bar 0 (length feed_urls) :: t.
Proof.
  split; [now rewrite !fetch_from_outcome|].
  unfold fetch_from. rewrite !trace_bind, without_bar_app.
  unfold for_each_tqdm.
  destruct (for_each_bar_same _ (fetch_feed_quiet W) feed_urls 0
              (length feed_urls) []) as [E1 E2].
  rewrite E1, E2. split.
  - now destruct (outcome (for_each feed_urls (fetch_feed W) [])).
  - destruct feed_urls as [|u us]; cbn [for_each_bar];
      rewrite trace_emit; eexists; cbn [app]; reflexivity.
Qed.

(** C10.  Let the driver reach an entry whose construction raises [e]: the
    feeds before its feed were fetched and all their records built, its
    feed was parsed, and the records of the entries before it were built.
    Then the driver ends with [e], with or without the bar, and so returns
    none of the records built before. *)
Theorem fetch_propagates (W : World) (feed_urls pre post : list string)
  (u : string) (show_progress : bool) (earlier : list (list ScrapedDeal))
  (feed : Feed) (es1 es2 : list Entry) (x : Entry)
  (recs1 : list ScrapedDeal) (e : exn) :
  feed_urls = pre ++ u :: post ->
  Forall2 (feed_records W) pre earlier ->
  feedparser_parse W u = inr feed ->
  firstn 10 (entries feed) = es1 ++ x :: es2 ->
  built_from W es1 recs1 ->
  outcome (ScrapedDeal_init W x) = inl e ->
  outcome (fetch_from W feed_urls show_progress) = inl e.
Proof.
  intros -> Hpre Hparse Hten Hes1 Hx. rewrite fetch_from_outcome.
  apply (for_each_raise (fetch_feed W) pre post u []
           ([] ++ concat earlier) e).
  - apply feeds_loop. now exists earlier.
  - rewrite fetch_feed_outcome, Hparse, Hten.
    apply (for_each_raise (fetch_entry W) es1 es2 x _
             (([] ++ concat earlier) ++ recs1) e).
    + apply entries_loop. now exists recs1.
    + now rewrite fetch_entry_outcome, Hx.
Qed.

(** ** The statements at the fixtures *)

Lemma init_details_features_witness :
  outcome (ScrapedDeal_init Fixture.site Fixture.e_scenario)
  = inr Fixture.d_scenario /\
  exists stuff content,
    requests_get Fixture.site (url Fixture.d_scenario) = inr stuff /\
    page_content Fixture.site stuff = inr content /\
    split_content content
    = inr (details Fixture.d_scenario, features Fixture.d_scenario) /\
    (features Fixture.d_scenario = ""%string <->
     contains "Features" content = false \/
     endswith "Features" content = true).
Proof.
  split; [reflexivity|].
  apply (init_details_features Fixture.site Fixture.e_scenario).
  reflexivity.
Defined.

Lemma fetch_from_records_witness :
  outcome (fetch_from Fixture.site
             ["http://feed/twelve"; "http://feed/empty"; "http://feed/three"]%string
             true)
  = inr (repeat Fixture.d_scenario 13) /\
  exists per_feed,
    Forall2 (feed_records Fixture.site)
      ["http://feed/twelve"; "http://feed/empty"; "http://feed/three"]%string
      per_feed /\
    repeat Fixture.d_scenario 13 = concat per_feed /\
    Forall (fun recs => length recs <= 10) per_feed /\
    length (repeat Fixture.d_scenario 13)
    = list_sum (map (@length ScrapedDeal) per_feed).
Proof.
  split; [vm_compute; reflexivity|].
  apply (fetch_from_records Fixture.site _ true).
  vm_compute; reflexivity.
Defined.

Lemma init_stores_describe_strips_witness :
  outcome (ScrapedDeal_init Fixture.site Fixture.e_scenario)
  = inr Fixture.d_scenario /\
  (exists stuff content,
     requests_get Fixture.site (url Fixture.d_scenario) = inr stuff /\
     page_content Fixture.site stuff = inr content /\
     split_content content
     = inr (details Fixture.d_scenario, features Fixture.d_scenario)) /\
  exists D F : string,
    describe Fixture.d_scenario =
    ("Title: " ++ title Fixture.d_scenario ++ nl ++ "Details: " ++ D ++ nl ++
     "Features: " ++ F ++ nl ++ "URL: " ++ url Fixture.d_scenario)%string /\
    is_strip_of (details Fixture.d_scenario) D /\
    is_strip_of (features Fixture.d_scenario) F.
Proof.
  split; [reflexivity|].
  apply (init_stores_describe_strips Fixture.site Fixture.e_scenario).
  reflexivity.
Defined.

Lemma extract_without_container_witness :
  soup_find_div Fixture.snippets Fixture.two_lines "snippet summary" = None /\
  extract Fixture.snippets Fixture.two_lines
  = smap nl_to_sp Fixture.two_lines.
Proof.
  split; [reflexivity|].
  apply (extract_without_container Fixture.snippets Fixture.two_lines).
  reflexivity.
Defined.

Lemma extract_idempotent_without_container_witness :
  soup_find_div Fixture.snippets
    (extract Fixture.snippets Fixture.two_lines) "snippet summary" = None /\
  extract Fixture.snippets (extract Fixture.snippets Fixture.two_lines)
  = extract Fixture.snippets Fixture.two_lines.
Proof.
  split; [reflexivity|].
  apply (extract_idempotent_without_container
           Fixture.snippets Fixture.two_lines).
  reflexivity.
Defined.

Lemma fetch_propagates_witness :
  let three := "http://feed/three"%string in
  let twice := "http://feed/twice"%string in
  let d := Fixture.d_scenario in
  let feed :=
    mkFeed [Fixture.e_scenario; Fixture.e_twice; Fixture.e_scenario] in
  ([three; twice] = [three] ++ twice :: [] /\
   Forall2 (feed_records Fixture.site) [three] [[d; d; d]] /\
   feedparser_parse Fixture.site twice = inr feed /\
   firstn 10 (entries feed)
   = [Fixture.e_scenario] ++ Fixture.e_twice :: [Fixture.e_scenario] /\
   built_from Fixture.site [Fixture.e_scenario] [d] /\
   outcome (ScrapedDeal_init Fixture.site Fixture.e_twice) = inl ValueError) /\
  outcome (fetch_from Fixture.site [three; twice] true) = inl ValueError.
Proof.
  intros three twice d feed.
  assert (H2 : Forall2 (feed_records Fixture.site) [three] [[d; d; d]]).
  { constructor; [|constructor].
    exists (mkFeed [Fixture.e_scenario; Fixture.e_scenario;
                    Fixture.e_scenario]).
    split; [reflexivity|]. repeat constructor. }
  assert (H5 : built_from Fixture.site [Fixture.e_scenario] [d])
    by (repeat constructor).
  split; [repeat split; try assumption; reflexivity|].
  apply (fetch_propagates Fixture.site [three; twice] [three] [] twice true
           [[d; d; d]] feed [Fixture.e_scenario] [Fixture.e_scenario]
           Fixture.e_twice [d] ValueError);
    try assumption; reflexivity.
Defined.

End Claims.

(** * Further properties *)

(** ** Characters and lines *)

Section Lines.
Import PyStr PyStrFacts.
Local Open Scope string_scope.

Lemma occurs_app (c : ascii) (a b : string) :
  occurs c (a ++ b) = occurs c a || occurs c b.
Proof.
  induction a as [|x a IH]; [reflexivity|].
  cbn [append occurs]. now rewrite IH, orb_assoc.
Qed.

Lemma occurs_smap_nl (s : string) : occurs LF (smap nl_to_sp s) = false.
Proof.
  induction s as [|c t IH]; [reflexivity|].
  cbn [smap occurs]. rewrite IH, orb_false_r. unfold nl_to_sp.
  destruct (Ascii.eqb c LF) eqn:E; [reflexivity | exact E].
Qed.

Lemma smap_nl_absent (s : string) :
  occurs LF s = false -> smap nl_to_sp s = s.
Proof.
  induction s as [|c t IH]; [reflexivity|]. cbn [occurs smap].
  intros H. apply orb_false_iff in H as [H1 H2].
  rewrite (IH H2). unfold nl_to_sp. now rewrite H1.
Qed.

(** A text in which the first character of [old] does not occur does not
    contain [old]. *)
Lemma contains_first_char (c : ascii) (r s : string) :
  occurs c s = false -> contains (String c r) s = false.
Proof.
  induction s as [|x s IH]; [reflexivity|]. cbn [occurs].
  intros H. apply orb_false_iff in H as [H1 H2].
  rewrite contains_cons, (IH H2), orb_false_r. cbn [prefix].
  destruct (ascii_dec c x) as [->|]; [|reflexivity].
  now rewrite Ascii.eqb_refl in H1.
Qed.

(** Replacing a text that is not there changes nothing. *)
Lemma replace_absent (old new s : string) :
  old <> "" -> contains old s = false -> replace old new s = s.
Proof.
  intros Hold. unfold replace. destruct old as [|c r]; [contradiction|].
  induction s as [|x s IH]; [reflexivity|]. intros H.
  rewrite contains_cons in H. apply orb_false_iff in H as [H1 H2].
  now rewrite replace_go_cons, H1, (IH H2).
Qed.

Lemma clean_content_single_line (content : string) :
  occurs LF (clean_content content) = false.
Proof. unfold clean_content. rewrite replace_nl. apply occurs_smap_nl. Qed.

(** X5.  Cleaning a page text a second time changes nothing: no newline is
    left for either replacement to find. *)
Theorem clean_content_idempotent (content : string) :
  clean_content (clean_content content) = clean_content content.
Proof.
  pose proof (clean_content_single_line content) as H.
  set (y := clean_content content) in *. unfold clean_content.
  rewrite (replace_absent (nl ++ "more") "" y);
    [|discriminate | now apply contains_first_char].
  rewrite replace_nl. now apply smap_nl_absent.
Qed.

(** X1.  Whatever the input and whatever BeautifulSoup finds in it, the
    text [extract] returns holds no newline character. *)
Theorem extract_single_line (W : World) (s : string) :
  occurs LF (extract W s) = false.
Proof. unfold extract. rewrite replace_nl. apply occurs_smap_nl. Qed.

Lemma isspace_nl_to_sp (c : ascii) : isspace c = false -> nl_to_sp c = c.
Proof.
  intros H. unfold nl_to_sp. destruct (Ascii.eqb c LF) eqn:E; [|reflexivity].
  apply Ascii.eqb_eq in E. subst c. discriminate H.
Qed.

Lemma last_or_smap (f : ascii -> ascii) (c : ascii) (t : string) :
  last_or (f c) (smap f t) = f (last_or c t).
Proof. revert c. induction t as [|x t IH]; intros c; cbn; auto. Qed.

Lemma trimmed_smap_nl (s : string) :
  trimmed s = true -> trimmed (smap nl_to_sp s) = true.
Proof.
  destruct s as [|c t]; [reflexivity|]. cbn [trimmed smap].
  intros H. apply andb_true_iff in H as [H1 H2].
  apply negb_true_iff in H1, H2.
  now rewrite last_or_smap, (isspace_nl_to_sp _ H1), (isspace_nl_to_sp _ H2),
    H1, H2.
Qed.

Lemma trimmed_strip (s : string) : trimmed (strip s) = true.
Proof. destruct (strip_is_strip s) as (l & t & _ & _ & _ & H). exact H. Qed.

(** X2.  When the snippet-summary element is found, the text [extract]
    returns neither starts nor ends with whitespace. *)
Theorem extract_found_trimmed (W : World) (s : string) (snippet_div : Tag) :
  soup_find_div W s "snippet summary" = Some snippet_div ->
  trimmed (extract W s) = true.
Proof.
  intros H. unfold extract. rewrite H, replace_nl.
  apply trimmed_smap_nl, trimmed_strip.
Qed.

End Lines.

(** ** The expression of [extract] *)

Section Tags.
Import PyStr PyStrFacts.
Local Open Scope string_scope.

Lemma sub_go_cons (c : ascii) (t : string) :
  Re.sub_go 0 (String c t) =
  match Re.match_tag (String c t) with
  | Some n => Re.sub_go (n - 1) t
  | None => String c (Re.sub_go 0 t)
  end.
Proof. reflexivity. Qed.

Lemma sub_go_skip (k : nat) (s : string) :
  Re.sub_go k s = Re.sub_go 0 (drop k s).
Proof.
  revert k. induction s as [|c t IH]; intros [|k]; try reflexivity.
  cbn [Re.sub_go drop]. apply IH.
Qed.

Lemma match_tag_other (c : ascii) (t : string) :
  Ascii.eqb c Re.LT = false -> Re.match_tag (String c t) = None.
Proof. intros H. unfold Re.match_tag. destruct t; [reflexivity | now rewrite H]. Qed.

(** X3.  A text without the character [<] goes through the expression
    unchanged. *)
Theorem sub_tags_without_lt (s : string) :
  occurs Re.LT s = false -> Re.sub_tags s = s.
Proof.
  unfold Re.sub_tags. induction s as [|c t IH]; [reflexivity|].
  cbn [occurs]. intros H. apply orb_false_iff in H as [H1 H2].
  now rewrite sub_go_cons, (match_tag_other c t H1), (IH H2).
Qed.

Lemma scan_close_body (body b : string) :
  occurs Re.LT body = false -> occurs Re.GT body = false ->
  Re.scan_close (body ++ String Re.GT b) = Some (String.length body).
Proof.
  induction body as [|c body IH]; intros H1 H2.
  - cbn [append Re.scan_close]. now rewrite Ascii.eqb_refl.
  - cbn [occurs] in H1, H2.
    apply orb_false_iff in H1 as [L1 L2]. apply orb_false_iff in H2 as [G1 G2].
    cbn [append Re.scan_close String.length]. now rewrite G1, L1, (IH L2 G2).
Qed.

Lemma drop_past (body : string) (c : ascii) (b : string) :
  drop (S (String.length body)) (body ++ String c b) = b.
Proof. induction body as [|x body IH]; [now destruct b | exact IH]. Qed.

(** X4.  A tag, that is [<], a non-empty body without [<] and [>], and
    [>], is removed whole, the text before it (without [<]) being kept, and
    the expression goes on behind it. *)
Theorem sub_tags_removes_tag (a body b : string) :
  occurs Re.LT a = false ->
  body <> "" ->
  occurs Re.LT body = false -> occurs Re.GT body = false ->
  Re.sub_tags (a ++ String Re.LT (body ++ String Re.GT b))
  = a ++ Re.sub_tags b.
Proof.
  intros Ha Hne HL HG. unfold Re.sub_tags.
  induction a as [|c a IH].
  - cbn [append]. rewrite sub_go_cons.
    destruct body as [|c1 body]; [contradiction|].
    cbn [occurs] in HL, HG.
    apply orb_false_iff in HL as [L1 L2]. apply orb_false_iff in HG as [G1 G2].
    cbn [append Re.match_tag]. rewrite Ascii.eqb_refl, L1. cbn [negb andb].
    rewrite (scan_close_body body b L2 G2). cbn [option_map].
    rewrite sub_go_skip.
    replace (String.length body + 3 - 1) with (S (S (String.length body)))
      by lia.
    change (drop (S (S (String.length body))) (String c1 ?t))
      with (drop (S (String.length body)) t).
    now rewrite drop_past.
  - cbn [occurs] in Ha. apply orb_false_iff in Ha as [H1 H2].
    cbn [append]. now rewrite sub_go_cons, (match_tag_other c _ H1), (IH H2).
Qed.

End Tags.

(** ** Records that were built *)

Section BuiltRecords.
Import PyStr PyStrFacts.
Local Open Scope string_scope.
Variable W : World.

(** The requests of [__init__], statement by statement. *)
Lemma init_trace (entry : Entry) :
  trace (ScrapedDeal_init W entry) =
  match e_title entry, e_summary entry, e_links entry with
  | Some _, Some _, Some (link :: _) =>
      match href link with
      | Some u => [HttpGet u]
      | None => []
      end
  | _, _, _ => []
  end%list.
Proof.
  unfold ScrapedDeal_init.
  destruct (e_title entry) as [t|]; [|reflexivity].
  destruct (e_summary entry) as [raw|]; [|reflexivity].
  destruct (e_links entry) as [[|link links]|]; try reflexivity.
  cbn -[extract page_content split_content].
  destruct (href link) as [u|]; [|reflexivity].
  cbn -[extract page_content split_content].
  destruct (requests_get W u) as [e|stuff]; [reflexivity|].
  cbn -[extract page_content split_content].
  destruct (page_content W stuff) as [e|content]; [reflexivity|].
  cbn -[extract page_content split_content].
  destruct (split_content content); reflexivity.
Qed.

(** X6.  Every record that is built takes its title from the entry as it
    is, its summary from [extract] on the entry's summary and its url from
    the [href] of the entry's first link, and building it sends exactly one
    request, a GET of that url. *)
Theorem init_provenance (entry : Entry) (d : ScrapedDeal) :
  outcome (ScrapedDeal_init W entry) = inr d ->
  e_title entry = Some (title d) /\
  (exists raw, e_summary entry = Some raw /\ summary d = extract W raw) /\
  (exists links, e_links entry = Some (mkLink (Some (url d)) :: links)) /\
  trace (ScrapedDeal_init W entry) = [HttpGet (url d)]%list.
Proof.
  rewrite init_outcome, init_trace. intros H.
  destruct (e_title entry) as [t|]; [|discriminate].
  destruct (e_summary entry) as [raw|]; [|discriminate].
  destruct (e_links entry) as [[|[h] links]|]; try discriminate.
  cbn [href] in *. destruct h as [u|]; [|discriminate].
  destruct (requests_get W u) as [|stuff]; [discriminate|].
  destruct (page_content W stuff) as [|content]; [discriminate|].
  destruct (split_content content) as [|parts]; [discriminate|].
  injection H as <-. cbn. repeat split; eauto.
Qed.

(** X7.  An entry without a title, or with a title and without a
    summary, ends the construction with the [KeyError] of that key, before
    the summary is looked at and before anything is requested. *)
Theorem init_malformed_entry (entry : Entry) :
  e_title entry = None \/ e_summary entry = None ->
  trace (ScrapedDeal_init W entry) = []%list /\
  outcome (ScrapedDeal_init W entry)
  = inl (KeyError match e_title entry with
                  | None => "title"
                  | Some _ => "summary"
                  end).
Proof.
  rewrite init_outcome, init_trace. intros H.
  destruct (e_title entry) as [t|]; [|now split].
  destruct (e_summary entry) as [raw|]; [|now split].
  destruct H; discriminate.
Qed.

(** The two parts of a split hold no marker. *)
Lemma split_content_marker_free (content d f : string) :
  split_content content = inr (d, f) ->
  contains "Features" d = false /\ contains "Features" f = false.
Proof.
  intros S. destruct (contains "Features" content) eqn:H.
  - destruct (split_content_found _ _ _ H S) as (E & F & R).
    split; [|exact R].
    destruct (contains "Features" d) eqn:Hd; [|reflexivity]. exfalso.
    destruct (contains_inv _ _ Hd) as (a & b & Ed).
    assert (L : String.length d <= String.length a).
    { apply (F a (b ++ "Features" ++ f)). rewrite E, Ed at 1.
      now rewrite !app_assoc. }
    rewrite Ed, !length_app in L. cbn in L. lia.
  - rewrite (split_content_absent _ H) in S. injection S as <- <-.
    now split.
Qed.

(** X8.  Neither [details] nor [features] of a record that was built
    contains the marker "Features". *)
Theorem built_record_marker_free (entry : Entry) (d : ScrapedDeal) :
  outcome (ScrapedDeal_init W entry) = inr d ->
  contains "Features" (details d) = false /\
  contains "Features" (features d) = false.
Proof.
  intros H. destruct (init_inv W entry d H) as (stuff & content & _ & _ & S).
  now apply (split_content_marker_free content).
Qed.

Lemma split_content_single_line (content d f : string) :
  occurs LF content = false ->
  split_content content = inr (d, f) ->
  occurs LF d = false /\ occurs LF f = false.
Proof.
  intros N S. destruct (contains "Features" content) eqn:H.
  - destruct (split_content_found _ _ _ H S) as (E & _ & _).
    rewrite E, !occurs_app in N.
    apply orb_false_iff in N as [N1 N2]. apply orb_false_iff in N2 as [_ N2].
    now split.
  - rewrite (split_content_absent _ H) in S. injection S as <- <-.
    now split.
Qed.

(** X9.  The summary, the details and the features of a record that was
    built hold no newline character. *)
Theorem built_record_single_line (entry : Entry) (d : ScrapedDeal) :
  outcome (ScrapedDeal_init W entry) = inr d ->
  occurs LF (summary d) = false /\
  occurs LF (details d) = false /\
  occurs LF (features d) = false.
Proof.
  intros H. split.
  - rewrite init_outcome in H.
    destruct (e_title entry); [|discriminate].
    destruct (e_summary entry) as [raw|]; [|discriminate].
    destruct (e_links entry) as [[|link links]|]; try discriminate.
    destruct (href link) as [u|]; [|discriminate].
    destruct (requests_get W u) as [|stuff]; [discriminate|].
    destruct (page_content W stuff) as [|content]; [discriminate|].
    destruct (split_content content) as [|parts]; [discriminate|].
    injection H as <-. cbn [summary]. unfold extract.
    rewrite replace_nl. apply occurs_smap_nl.
  - destruct (init_inv W entry d H) as (stuff & content & _ & P & S).
    apply (split_content_single_line content); [|exact S].
    unfold page_content in P.
    destruct (soup_find_div W stuff "content-section"); [|discriminate].
    injection P as <-. apply clean_content_single_line.
Qed.

End BuiltRecords.

(** ** Whitespace around the fields of [describe] *)

Section Padding.
Import PyStr PyStrFacts.
Local Open Scope string_scope.

Lemma rstrip_all_space (r : string) : all_space r = true -> rstrip r = "".
Proof.
  induction r as [|c r IH]; [reflexivity|]. cbn [all_space rstrip].
  intros H. apply andb_true_iff in H as [H1 H2]. now rewrite (IH H2), H1.
Qed.

Lemma rstrip_pad (s r : string) :
  all_space r = true -> rstrip (s ++ r) = rstrip s.
Proof.
  intros H. induction s as [|c s IH]; [now apply rstrip_all_space|].
  cbn [append rstrip]. now rewrite IH.
Qed.

Lemma strip_pad_left (l s : string) :
  all_space l = true -> strip (l ++ s) = strip s.
Proof.
  unfold strip. intros H. induction l as [|c l IH]; [reflexivity|].
  cbn [all_space] in H. apply andb_true_iff in H as [H1 H2].
  cbn [append rstrip]. rewrite H1. specialize (IH H2).
  destruct (rstrip (l ++ s)) as [|x t].
  - cbn [is_empty andb lstrip]. exact IH.
  - cbn [is_empty andb lstrip]. rewrite H1. exact IH.
Qed.

(** Whitespace put around a text is lost in [strip]. *)
Lemma strip_pad (l s r : string) :
  all_space l = true -> all_space r = true -> strip (l ++ s ++ r) = strip s.
Proof.
  intros Hl Hr. rewrite (strip_pad_left l _ Hl). unfold strip.
  now rewrite (rstrip_pad s r Hr).
Qed.

(** X10.  [describe] does not see the whitespace around [details] and
    [features]: two records that differ only by whitespace before and
    behind these two fields have the same description. *)
Theorem describe_ignores_padding (d : ScrapedDeal) (l1 r1 l2 r2 : string) :
  all_space l1 = true -> all_space r1 = true ->
  all_space l2 = true -> all_space r2 = true ->
  describe (mkScrapedDeal (title d) (summary d) (url d)
              (l1 ++ details d ++ r1) (l2 ++ features d ++ r2))
  = describe d.
Proof.
  intros H1 H2 H3 H4. unfold describe. cbn [title url details features].
  now rewrite (strip_pad l1 _ r1 H1 H2), (strip_pad l2 _ r2 H3 H4).
Qed.

End Padding.

(** ** What a run does *)

Section RunEvents.
Variable W : World.

Lemma init_trace_built (entry : Entry) (d : ScrapedDeal) :
  outcome (ScrapedDeal_init W entry) = inr d ->
  trace (ScrapedDeal_init W entry) = [HttpGet (url d)].
Proof.
  rewrite init_outcome, init_trace. intros H.
  destruct (e_title entry) as [t|]; [|discriminate].
  destruct (e_summary entry) as [raw|]; [|discriminate].
  destruct (e_links entry) as [[|link links]|]; try discriminate.
  destruct (href link) as [u|]; [|discriminate].
  destruct (requests_get W u) as [|stuff]; [discriminate|].
  destruct (page_content W stuff) as [|content]; [discriminate|].
  destruct (split_content content) as [|parts]; [discriminate|].
  now injection H as <-.
Qed.

Lemma fetch_entry_trace (entry : Entry) (ds : list ScrapedDeal) :
  trace (fetch_entry W entry ds) =
  trace (ScrapedDeal_init W entry) ++
  match outcome (ScrapedDeal_init W entry) with
  | inl _ => []
  | inr _ => [Slept]
  end.
Proof.
  unfold fetch_entry. rewrite trace_bind.
  now destruct (outcome (ScrapedDeal_init W entry)).
Qed.

Lemma fetch_feed_trace (u : string) (ds : list ScrapedDeal) :
  trace (fetch_feed W u ds) =
  FeedParsed u ::
  match feedparser_parse W u with
  | inl _ => []
  | inr feed =>
      trace (for_each (firstn 10 (entries feed)) (fetch_entry W) ds)
  end.
Proof.
  unfold fetch_feed. rewrite trace_emit, trace_bind. cbn [lift trace fst app].
  rewrite outcome_lift. now destruct (feedparser_parse W u).
Qed.

Lemma for_each_trace_cons {X St} (body : X -> St -> M St) (x : X)
  (xs : list X) (s : St) :
  trace (for_each (x :: xs) body s) =
  trace (body x s) ++
  match outcome (body x s) with
  | inl _ => []
  | inr s' => trace (for_each xs body s')
  end.
Proof. cbn [for_each]. apply trace_bind. Qed.

Lemma entries_trace (es : list Entry) (recs : list ScrapedDeal) :
  built_from W es recs ->
  forall ds0,
    trace (for_each es (fetch_entry W) ds0) = flat_map record_events recs.
Proof.
  unfold built_from. induction 1 as [|e d es recs I F IH]; intros ds0;
    [reflexivity|].
  rewrite for_each_trace_cons, fetch_entry_trace, fetch_entry_outcome.
  rewrite (init_trace_built e d I), I, IH. reflexivity.
Qed.

Lemma feeds_trace (feed_urls : list string)
  (per_feed : list (list ScrapedDeal)) :
  Forall2 (feed_records W) feed_urls per_feed ->
  forall ds0,
    trace (for_each feed_urls (fetch_feed W) ds0)
    = run_events feed_urls per_feed.
Proof.
  induction 1 as [|u recs us pf (feed & P & B) F IH]; intros ds0;
    [reflexivity|].
  rewrite for_each_trace_cons, fetch_feed_trace, fetch_feed_outcome, P.
  rewrite (entries_trace _ _ B).
  assert (L : outcome (for_each (firstn 10 (entries feed))
                         (fetch_entry W) ds0) = inr (ds0 ++ recs))
    by (apply entries_loop; now exists recs).
  rewrite L, IH. reflexivity.
Qed.

Lemma fetch_from_trace_plain (feed_urls : list string) :
  trace (fetch_from W feed_urls false)
  = trace (for_each feed_urls (fetch_feed W) []).
Proof.
  unfold fetch_from. rewrite trace_bind.
  destruct (outcome (for_each feed_urls (fetch_feed W) []));
    cbn; now rewrite app_nil_r.
Qed.


(** X11.  A run without the bar that returns has done this and nothing
    else: for each feed in turn, one parse of the feed and then, for each of
    its records in turn, one GET of the record's url followed by one
    sleep. *)
Theorem fetch_from_events (feed_urls : list string) (ds : list ScrapedDeal) :
  outcome (fetch_from W feed_urls false) = inr ds ->
  exists per_feed,
    Forall2 (feed_records W) feed_urls per_feed /\
    ds = concat per_feed /\
    trace (fetch_from W feed_urls false) = run_events feed_urls per_feed.
Proof.
  rewrite fetch_from_outcome, fetch_from_trace_plain. intros H.
  apply feeds_loop in H as (pf & F & ->).
  exists pf. repeat split; [assumption|]. now apply feeds_trace.
Qed.





End RunEvents.

(** ** Bounds, failing feeds and composition *)

Section RunBounds.
Variable W : World.








(** X14.  When the parser raises on a feed, the feeds before it having
    been fetched with all their records, the run ends with that exception,
    with or without the bar; without the bar it has done what it does for
    the earlier feeds and the one parse that failed, and nothing for the
    feeds behind. *)
Theorem fetch_feed_failure (feed_urls pre post : list string) (u : string)
  (show_progress : bool) (earlier : list (list ScrapedDeal)) (e : exn) :
  feed_urls = pre ++ u :: post ->
  Forall2 (feed_records W) pre earlier ->
  feedparser_parse W u = inl e ->
  outcome (fetch_from W feed_urls show_progress) = inl e /\
  trace (fetch_from W feed_urls false)
  = run_events pre earlier ++ [FeedParsed u].
Proof.
  intros -> Hpre Hparse.
  assert (L : outcome (for_each pre (fetch_feed W) [])
              = inr ([] ++ concat earlier))
    by (apply feeds_loop; now exists earlier).
  split.
  - rewrite fetch_from_outcome.
    apply (for_each_raise (fetch_feed W) pre post u [] _ e L).
    now rewrite fetch_feed_outcome, Hparse.
  - rewrite fetch_from_trace_plain, for_each_app, trace_bind, L.
    rewrite (feeds_trace W _ _ Hpre), for_each_trace_cons.
    rewrite fetch_feed_trace, fetch_feed_outcome, Hparse. reflexivity.
Qed.

(** X15.  Fetching a list of feeds followed by another returns exactly
    when fetching each of the two returns, and then returns the records of
    the first followed by those of the second. *)
Theorem fetch_from_app (l1 l2 : list string) (show_progress : bool)
  (ds : list ScrapedDeal) :
  outcome (fetch_from W (l1 ++ l2) show_progress) = inr ds <->
  exists ds1 ds2,
    outcome (fetch_from W l1 show_progress) = inr ds1 /\
    outcome (fetch_from W l2 show_progress) = inr ds2 /\
    ds = ds1 ++ ds2.
Proof.
  rewrite !fetch_from_outcome. split.
  - intros H. apply feeds_loop in H as (pf & F & ->).
    apply Forall2_app_inv_l in F as (pf1 & pf2 & F1 & F2 & ->).
    exists (concat pf1), (concat pf2). repeat split.
    + apply feeds_loop. now exists pf1.
    + apply feeds_loop. now exists pf2.
    + cbn [app]. apply concat_app.
  - intros (ds1 & ds2 & H1 & H2 & ->).
    apply feeds_loop in H1 as (pf1 & F1 & ->).
    apply feeds_loop in H2 as (pf2 & F2 & ->).
    apply feeds_loop. exists (pf1 ++ pf2). split.
    + now apply Forall2_app.
    + cbn [app]. now rewrite concat_app.
Qed.

End RunBounds.

(** ** The order of the floats *)

Section FloatOrder.
Local Open Scope float_scope.

Lemma SFltb_trans (x y z : spec_float) :
  SFltb x y = true -> SFltb y z = true -> SFltb x z = true.
Proof.
  unfold SFltb.
  destruct x as [sx|[|]| |[|] mx ex], y as [sy|[|]| |[|] my ey],
    z as [sz|[|]| |[|] mz ez]; cbn; try discriminate; try reflexivity.
  all: fold (Pos.compare mx my); fold (Pos.compare my mz);
    fold (Pos.compare mx mz).
  all: destruct (Z.compare_spec ex ey), (Z.compare_spec ey ez),
         (Z.compare_spec ex ez); subst; try discriminate; try reflexivity;
         try lia.
  all: destruct (Pos.compare_spec mx my), (Pos.compare_spec my mz),
         (Pos.compare_spec mx mz); subst; cbn; try discriminate;
         try reflexivity; try lia.
Qed.

Lemma SFleb_trans (x y z : spec_float) :
  SFleb x y = true -> SFleb y z = true -> SFleb x z = true.
Proof.
  unfold SFleb.
  destruct x as [sx|[|]| |[|] mx ex], y as [sy|[|]| |[|] my ey],
    z as [sz|[|]| |[|] mz ez]; cbn; try discriminate; try reflexivity.
  all: fold (Pos.compare mx my); fold (Pos.compare my mz);
    fold (Pos.compare mx mz).
  all: destruct (Z.compare_spec ex ey), (Z.compare_spec ey ez),
         (Z.compare_spec ex ez); subst; try discriminate; try reflexivity;
         try lia.
  all: destruct (Pos.compare_spec mx my), (Pos.compare_spec my mz),
         (Pos.compare_spec mx mz); subst; cbn; try discriminate;
         try reflexivity; try lia.
Qed.

Lemma SFleb_refl (x : spec_float) : SFeqb x x = true -> SFleb x x = true.
Proof.
  unfold SFeqb, SFleb. now destruct (SFcompare x x) as [[| |]|].
Qed.

Lemma SFltb_leb (x y : spec_float) : SFltb x y = true -> SFleb x y = true.
Proof.
  unfold SFltb, SFleb. now destruct (SFcompare x y) as [[| |]|].
Qed.

Lemma SFleb_total (x y : spec_float) :
  SFeqb x x = true -> SFeqb y y = true ->
  SFltb x y = false -> SFleb y x = true.
Proof.
  unfold SFeqb, SFltb, SFleb.
  destruct x as [sx|[|]| |[|] mx ex], y as [sy|[|]| |[|] my ey];
    cbn; try discriminate; try reflexivity; intros _ _.
  all: fold (Pos.compare mx my); fold (Pos.compare my mx).
  all: destruct (Z.compare_spec ex ey), (Z.compare_spec ey ex); subst;
    try discriminate; try reflexivity; try lia.
  all: destruct (Pos.compare_spec mx my), (Pos.compare_spec my mx); subst;
    cbn; try discriminate; try reflexivity; try lia.
Qed.

Lemma ltb_trans (x y z : float) :
  (x <? y) = true -> (y <? z) = true -> (x <? z) = true.
Proof. rewrite !ltb_spec. apply SFltb_trans. Qed.

Lemma leb_trans (x y z : float) :
  (x <=? y) = true -> (y <=? z) = true -> (x <=? z) = true.
Proof. rewrite !leb_spec. apply SFleb_trans. Qed.

Lemma leb_refl (x : float) : is_nan x = false -> (x <=? x) = true.
Proof.
  unfold is_nan. intros H. apply negb_false_iff in H.
  rewrite eqb_spec in H. rewrite leb_spec. now apply SFleb_refl.
Qed.

Lemma ltb_leb (x y : float) : (x <? y) = true -> (x <=? y) = true.
Proof. rewrite ltb_spec, leb_spec. apply SFltb_leb. Qed.

Lemma leb_total (x y : float) :
  is_nan x = false -> is_nan y = false ->
  (x <? y) = false -> (y <=? x) = true.
Proof.
  unfold is_nan. intros Hx Hy. apply negb_false_iff in Hx, Hy.
  rewrite eqb_spec in Hx, Hy. rewrite ltb_spec, leb_spec.
  now apply SFleb_total.
Qed.

End FloatOrder.

(** ** The sign of a difference of floats *)

Section DifferenceSign.
Local Open Scope Z_scope.

Lemma iter_pos_iter {A} (f : A -> A) (n : positive) (x : A) :
  iter_pos f n x = Pos.iter f x n.
Proof.
  revert x. induction n as [n IH|n IH|]; intros x; cbn [iter_pos Pos.iter].
  - now rewrite !IH, <- !Pos.iter_swap.
  - now rewrite !IH.
  - reflexivity.
Qed.

Lemma shr_1_quot2 (mrs : shr_record) :
  shr_m (shr_1 mrs) = Z.quot2 (shr_m mrs).
Proof. destruct mrs as [[|[p|p|]|[p|p|]] r s]; reflexivity. Qed.

Lemma iter_quot2 (n : positive) (m : Z) :
  0 <= m -> Pos.iter Z.quot2 m n = m / 2 ^ Zpos n.
Proof.
  intros Hm. induction n as [|n IH] using Pos.peano_ind.
  - cbn [Pos.iter]. rewrite Zquot2_quot. now rewrite Z.quot_div_nonneg by lia.
  - rewrite Pos.iter_succ, IH, Zquot2_quot, Z.quot_div_nonneg
      by (try apply Z.div_pos; lia).
    rewrite Pos2Z.inj_succ, Z.pow_succ_r by lia.
    rewrite Z.div_div by lia. f_equal. lia.
Qed.

Lemma shr_m_iter (n : positive) (mrs : shr_record) :
  0 <= shr_m mrs ->
  shr_m (iter_pos shr_1 n mrs) = shr_m mrs / 2 ^ Zpos n.
Proof.
  intros H. rewrite iter_pos_iter, <- (iter_quot2 n _ H).
  apply Pos.iter_swap_gen. intros a. apply shr_1_quot2.
Qed.

Lemma digits_bounds (p : positive) :
  2 ^ (Zpos (digits2_pos p) - 1) <= Zpos p < 2 ^ Zpos (digits2_pos p).
Proof.
  induction p as [p IH|p IH|]; cbn [digits2_pos]; [| |cbn; lia].
  all: rewrite Pos2Z.inj_succ; replace (Z.succ (Zpos (digits2_pos p)) - 1)
         with (Z.succ (Zpos (digits2_pos p) - 1)) by lia;
       rewrite !Z.pow_succ_r by lia; lia.
Qed.

Lemma fexp_eq (e : Z) : fexp prec emax e = Z.max (e - 53) (-1074).
Proof. reflexivity. Qed.

(** A positive mantissa stays positive through the shift to its format. *)
Lemma shr_fexp_pos (p : positive) (e : Z) (l : location) :
  -1074 <= e ->
  0 < shr_m (fst (shr_fexp prec emax (Zpos p) e l)) /\
  -1074 <= snd (shr_fexp prec emax (Zpos p) e l).
Proof.
  intros He. unfold shr_fexp. rewrite fexp_eq. cbn [Zdigits2].
  pose proof (digits_bounds p) as [Lo _].
  set (d := Zpos (digits2_pos p)) in *.
  assert (Hm : shr_m (shr_record_of_loc (Zpos p) l) = Zpos p)
    by (destruct l as [|[| |]]; reflexivity).
  destruct (Z.max (d + e - 53) (-1074) - e) as [|n|n] eqn:En;
    cbn [shr fst snd]; rewrite ?Hm; try (split; lia).
  rewrite shr_m_iter by (rewrite Hm; lia). rewrite Hm. split; [|lia].
  apply Z.div_str_pos. split; [apply Z.pow_pos_nonneg; lia|].
  apply Z.le_trans with (2 ^ (d - 1)); [|exact Lo].
  apply Z.pow_le_mono_r; lia.
Qed.

Lemma round_nearest_even_pos (m : Z) (l : location) :
  0 < m -> 0 < round_nearest_even m l.
Proof.
  intros H. destruct l as [|[| |]]; cbn [round_nearest_even]; try lia.
  destruct (Z.even m); lia.
Qed.

Lemma binary_round_aux_sign (s : bool) (p : positive) (e : Z) (l : location) :
  -1074 <= e -> signed_nonzero s (binary_round_aux prec emax s (Zpos p) e l).
Proof.
  intros He. unfold binary_round_aux.
  destruct (shr_fexp_pos p e l He) as [H1 H2].
  destruct (shr_fexp prec emax (Zpos p) e l) as [mrs' e'].
  cbn [fst snd] in H1, H2.
  pose proof (round_nearest_even_pos _ (loc_of_shr_record mrs') H1) as H3.
  destruct (round_nearest_even (shr_m mrs') (loc_of_shr_record mrs'))
    as [|q|q]; try lia.
  destruct (shr_fexp_pos q e' loc_Exact H2) as [H4 _].
  destruct (shr_fexp prec emax (Zpos q) e' loc_Exact) as [mrs'' e''].
  cbn [fst] in H4. destruct (shr_m mrs'') as [|m|m]; try lia.
  now destruct (e'' <=? emax - prec).
Qed.

Lemma binary_round_sign (s : bool) (p : positive) (e : Z) :
  -1074 <= e -> signed_nonzero s (binary_round prec emax s p e).
Proof.
  intros He. unfold binary_round.
  destruct (shl_align p e (fexp prec emax (Zpos (digits2_pos p) + e)))
    as [mz ez] eqn:A.
  apply binary_round_aux_sign.
  unfold shl_align in A. rewrite fexp_eq in A.
  destruct (Z.max (Zpos (digits2_pos p) + e - 53) (-1074) - e);
    injection A as _ <-; lia.
Qed.

Lemma binary_normalize_sign (m e : Z) :
  -1074 <= e ->
  SFltb SFzero (binary_normalize prec emax m e false) = (0 <? m).
Proof.
  intros He. destruct m as [|p|p]; cbn [binary_normalize]; [reflexivity| |].
  - pose proof (binary_round_sign false p e He) as H.
    destruct (binary_round prec emax false p e) as [| | |s m' e'];
      cbn in H; try contradiction; subst; reflexivity.
  - pose proof (binary_round_sign true p e He) as H.
    destruct (binary_round prec emax true p e) as [| | |s m' e'];
      cbn in H; try contradiction; subst; reflexivity.
Qed.

Lemma iter_xO (p d : positive) :
  Zpos (Pos.iter xO p d) = Zpos p * 2 ^ Zpos d.
Proof.
  induction d as [|d IH] using Pos.peano_ind; [cbn [Pos.iter]; lia|].
  rewrite Pos.iter_succ, Pos2Z.inj_xO, IH, Pos2Z.inj_succ, Z.pow_succ_r by lia.
  lia.
Qed.

Lemma shl_align_val (m : positive) (e ez : Z) :
  ez <= e -> Zpos (fst (shl_align m e ez)) = Zpos m * 2 ^ (e - ez).
Proof.
  intros H. unfold shl_align. destruct (ez - e) as [|d|d] eqn:E; try lia.
  - replace (e - ez) with 0 by lia. cbn [fst]. lia.
  - replace (e - ez) with (Zpos d) by lia. cbn [fst]. apply iter_xO.
Qed.

Lemma valid_finite (s : bool) (m : positive) (e : Z) :
  valid_binary (S754_finite s m e) = true ->
  -1074 <= e /\ Zpos (digits2_pos m) <= 53 /\
  (-1074 < e -> Zpos (digits2_pos m) = 53).
Proof.
  cbn [SpecFloat.valid_binary]. unfold bounded, canonical_mantissa.
  rewrite fexp_eq. intros H. apply andb_true_iff in H as [H _].
  apply Z.eqb_eq in H. lia.
Qed.

(** The sign of the exact difference of two finite numbers, both brought
    to the smaller exponent, is what the comparison says. *)
Lemma aligned_difference (sx sy : bool) (mx my : positive) (ex ey : Z) :
  valid_binary (S754_finite sx mx ex) = true ->
  valid_binary (S754_finite sy my ey) = true ->
  let ez := Z.min ex ey in
  (0 <? cond_Zopp sx (Zpos (fst (shl_align mx ex ez)))
        - cond_Zopp sy (Zpos (fst (shl_align my ey ez))))
  = SFltb (S754_finite sy my ey) (S754_finite sx mx ex).
Proof.
  intros Vx Vy ez.
  destruct (valid_finite _ _ _ Vx) as (Ex & Dx & Nx).
  destruct (valid_finite _ _ _ Vy) as (Ey & Dy & Ny).
  rewrite (shl_align_val mx ex ez), (shl_align_val my ey ez)
    by (unfold ez; lia).
  pose proof (digits_bounds mx) as [Lx Ux].
  pose proof (digits_bounds my) as [Ly Uy].
  assert (Ux' : Zpos mx < 2 ^ 53)
    by (eapply Z.lt_le_trans; [exact Ux | apply Z.pow_le_mono_r; lia]).
  assert (Uy' : Zpos my < 2 ^ 53)
    by (eapply Z.lt_le_trans; [exact Uy | apply Z.pow_le_mono_r; lia]).
  unfold SFltb, SFcompare. fold (Pos.compare my mx).
  destruct (Z.compare_spec ey ex) as [E|E|E].
  - subst ey. unfold ez. rewrite Z.min_id, Z.sub_diag, Z.pow_0_r, !Z.mul_1_r.
    destruct (Pos.compare_spec my mx) as [P|P|P], sx, sy; cbn [cond_Zopp CompOpp];
      try (apply Z.ltb_lt; lia); try (apply Z.ltb_ge; lia).
  - assert (Hez : ez = ey) by (unfold ez; lia). rewrite Hez.
    rewrite Z.sub_diag, Z.pow_0_r, Z.mul_1_r.
    assert (P2 : 2 ^ 1 <= 2 ^ (ex - ey)) by (apply Z.pow_le_mono_r; lia).
    rewrite (Nx ltac:(lia)) in Lx.
    change (2 ^ (53 - 1)) with 4503599627370496 in Lx.
    change (2 ^ 53) with 9007199254740992 in Uy'.
    change (2 ^ 1) with 2 in P2.
    assert (G : Zpos my < Zpos mx * 2 ^ (ex - ey)) by nia.
    destruct sx, sy; cbn [cond_Zopp];
      try (apply Z.ltb_lt; lia); try (apply Z.ltb_ge; lia).
  - assert (Hez : ez = ex) by (unfold ez; lia). rewrite Hez.
    rewrite Z.sub_diag, Z.pow_0_r, Z.mul_1_r.
    assert (P2 : 2 ^ 1 <= 2 ^ (ey - ex)) by (apply Z.pow_le_mono_r; lia).
    rewrite (Ny ltac:(lia)) in Ly.
    change (2 ^ (53 - 1)) with 4503599627370496 in Ly.
    change (2 ^ 53) with 9007199254740992 in Ux'.
    change (2 ^ 1) with 2 in P2.
    assert (G : Zpos mx < Zpos my * 2 ^ (ey - ex)) by nia.
    destruct sx, sy; cbn [cond_Zopp];
      try (apply Z.ltb_lt; lia); try (apply Z.ltb_ge; lia).
Qed.

(** A difference is positive exactly when the first number is the greater
    one. *)
Lemma SFsub_positive (x y : spec_float) :
  valid_binary x = true -> valid_binary y = true ->
  SFltb SFzero (SFsub prec emax x y) = SFltb y x.
Proof.
  intros Vx Vy.
  destruct x as [sx|sx| |sx mx ex], y as [sy|sy| |sy my ey];
    try reflexivity;
    try (destruct sx, sy; reflexivity);
    try (destruct sx; reflexivity); try (destruct sy; reflexivity).
  cbn [SFsub]. rewrite binary_normalize_sign.
  - now apply aligned_difference.
  - destruct (valid_finite _ _ _ Vx) as (Ex & _).
    destruct (valid_finite _ _ _ Vy) as (Ey & _). lia.
Qed.

End DifferenceSign.

(** The discount [estimate - price] is positive exactly when the price is
    below the estimate. *)
Lemma sub_positive (x y : float) : (0 <? x - y)%float = (y <? x)%float.
Proof.
  rewrite !ltb_spec, sub_spec.
  change (Prim2SF 0) with SFzero.
  apply SFsub_positive; apply Prim2SF_valid.
Qed.

Section Discount.
Local Open Scope float_scope.

(** C8, as stated, fails: the class accepts any discount; the opportunity
    below, over a deal priced 50.0 with the estimate 80.0, carries the
    discount 0.0. *)
Lemma discount_unconstrained :
  let opp := mkOpportunity (mkDeal "x" 50 "http://x") 80 0 in
  price (deal opp) = 50 /\ estimate opp = 80 /\
  discount opp <> estimate opp - price (deal opp).
Proof.
  cbn zeta. repeat split. cbn. intros H.
  apply (f_equal (fun x => 0 <? x)) in H. vm_compute in H. discriminate H.
Qed.

(** C8, amended.  The class [Opportunity] stores the discount it is given.
    For every opportunity whose discount is the amount
    [estimate - deal.price], the discount is positive exactly when the price
    is below the estimate (the deal is underpriced), and the dashboard
    reports it as savings exactly then. *)
Theorem discount_sign_convention (opp : Opportunity) :
  discount opp = estimate opp - price (deal opp) ->
  (0 <? discount opp) = (price (deal opp) <? estimate opp) /\
  (display_verdict opp <> Overpriced <->
   (price (deal opp) <? estimate opp) = true).
Proof.
  intros H.
  assert (S : (0 <? discount opp) = (price (deal opp) <? estimate opp))
    by (rewrite H; apply sub_positive).
  split; [exact S|]. rewrite <- S. unfold display_verdict.
  destruct (50 <? discount opp) eqn:G.
  - split; [intros _ | discriminate].
    now apply (ltb_trans 0 50 (discount opp)).
  - destruct (0 <? discount opp); split; congruence.
Qed.

Lemma discount_sign_convention_witness :
  let opp := mkOpportunity (mkDeal "x" 50 "http://x") 80 30 in
  discount opp = estimate opp - price (deal opp) /\
  discount opp = 30 /\
  (0 <? discount opp) = (price (deal opp) <? estimate opp) /\
  (display_verdict opp <> Overpriced <->
   (price (deal opp) <? estimate opp) = true).
Proof.
  intros opp. split; [reflexivity|]. split; [reflexivity|].
  apply (discount_sign_convention opp). reflexivity.
Defined.

End Discount.

(** ** The dashboard *)

Section Dashboard.
Local Open Scope float_scope.

(** X16.  The dashboard reports a discount as savings ("Great deal" or
    "Good deal") exactly when the discount is positive, and as overpriced
    otherwise, a discount that is not a number included. *)
Theorem display_verdict_savings (opp : Opportunity) :
  display_verdict opp <> Overpriced <-> (0 <? discount opp) = true.
Proof.
  unfold display_verdict. destruct (50 <? discount opp) eqn:G.
  - split; [intros _ | discriminate].
    now apply (ltb_trans 0 50 (discount opp)).
  - destruct (0 <? discount opp); split; congruence.
Qed.

(** X17.  The metric "Deals Above Threshold" counts exactly the
    opportunities the list of opportunities shows as "Great deal", and it
    never exceeds the number of opportunities. *)
Theorem good_deals_are_great (memory : list Opportunity) :
  good_deals memory
  = length (filter (fun opp => match display_verdict opp with
                               | GreatDeal => true
                               | _ => false
                               end) memory) /\
  good_deals memory <= length memory.
Proof.
  unfold good_deals. split.
  - f_equal. apply filter_ext. intros opp. unfold display_verdict.
    destruct (50 <? discount opp); [reflexivity|].
    now destruct (0 <? discount opp).
  - apply filter_length_le.
Qed.

Lemma max_from_spec (items : list float) :
  Forall (fun x => is_nan x = false) items ->
  forall m0, is_nan m0 = false ->
    let m := max_from m0 items in
    is_nan m = false /\ In m (m0 :: items) /\ (m0 <=? m) = true /\
    Forall (fun x => (x <=? m) = true) items.
Proof.
  induction 1 as [|y ys Hy Hys IH]; intros m0 H0; cbn [max_from].
  - repeat split; [assumption | now left | now apply leb_refl | constructor].
  - set (m1 := if m0 <? y then y else m0).
    assert (H1 : is_nan m1 = false) by (unfold m1; now destruct (m0 <? y)).
    assert (L0 : (m0 <=? m1) = true).
    { unfold m1. destruct (m0 <? y) eqn:C;
        [now apply ltb_leb | now apply leb_refl]. }
    assert (Ly : (y <=? m1) = true).
    { unfold m1. destruct (m0 <? y) eqn:C;
        [now apply leb_refl | now apply leb_total]. }
    destruct (IH m1 H1) as (Hn & Hin & Hle & Hall). repeat split.
    + exact Hn.
    + destruct Hin as [<- | Hin]; [|now right; right].
      unfold m1. destruct (m0 <? y); [right; now left | now left].
    + now apply (leb_trans m0 m1).
    + constructor; [now apply (leb_trans y m1) | exact Hall].
Qed.

Lemma max_from_in (items : list float) (m0 : float) :
  In (max_from m0 items) (m0 :: items).
Proof.
  revert m0. induction items as [|y ys IH]; intros m0; cbn [max_from];
    [now left|].
  destruct (IH (if m0 <? y then y else m0)) as [E | Hin];
    [|now right; right].
  rewrite <- E. destruct (m0 <? y); [right; now left | now left].
Qed.

(** X18.  The metric "Best Discount" never fails: for every memory the
    value is computed without an exception; there is no value to show
    exactly when the memory is empty; a value shown is the discount of one
    of the opportunities; and when no discount is a NaN, no opportunity has
    a greater discount than the value shown. *)
Theorem best_discount_is_max (memory : list Opportunity) :
  exists r,
    best_discount memory = inr r /\
    (r = None <-> memory = []) /\
    forall m, r = Some m ->
      (exists opp, In opp memory /\ discount opp = m) /\
      ((forall opp, In opp memory -> is_nan (discount opp) = false) ->
       forall opp, In opp memory -> (discount opp <=? m) = true).
Proof.
  destruct memory as [|o memory].
  - exists None. repeat split; discriminate.
  - exists (Some (max_from (discount o) (map discount memory))).
    split; [reflexivity|]. split; [split; discriminate|].
    intros m E. injection E as <-. split.
    + pose proof (max_from_in (map discount memory) (discount o)) as Hin.
      change (In (max_from (discount o) (map discount memory))
                (map discount (o :: memory))) in Hin.
      apply in_map_iff in Hin as (opp & E & Hi). now exists opp.
    + intros Hnan.
      assert (F : Forall (fun x => is_nan x = false) (map discount memory)).
      { apply Forall_forall. intros x Hx.
        apply in_map_iff in Hx as (opp & <- & Hi). apply Hnan. now right. }
      destruct (max_from_spec _ F (discount o) (Hnan o (or_introl eq_refl)))
        as (_ & _ & Hle & Hall).
      intros opp [<- | Hi]; [exact Hle|].
      rewrite Forall_forall in Hall. apply Hall. now apply in_map.
Qed.

Lemma export_rows_from (memory : list Opportunity) (data : list Row) :
  fold_left
    (fun data opp =>
       data ++ [mkRow (product_description (deal opp)) (price (deal opp))
                  (estimate opp) (discount opp) (deal_url (deal opp))])
    memory data
  = data ++ map (fun opp =>
                   mkRow (product_description (deal opp)) (price (deal opp))
                     (estimate opp) (discount opp) (deal_url (deal opp)))
              memory.
Proof.
  revert data. induction memory as [|opp memory IH]; intros data; cbn.
  - now rewrite app_nil_r.
  - now rewrite IH, <- app_assoc.
Qed.

(** X19.  The exported table has one row per opportunity of the memory,
    in the order of the memory, each row holding the description, the price,
    the estimate, the discount and the url of its opportunity; it loses
    nothing: two memories with the same table are the same; and nothing is
    exported without a framework or from an empty memory. *)
Theorem export_rows_lossless (memory : list Opportunity) :
  export_rows memory
  = map (fun opp =>
           mkRow (product_description (deal opp)) (price (deal opp))
             (estimate opp) (discount opp) (deal_url (deal opp)))
      memory /\
  (forall memory', export_rows memory = export_rows memory' ->
                   memory = memory') /\
  (forall framework,
     export_opportunities framework = None <->
     framework = None \/ framework = Some [])%list.
Proof.
  unfold export_rows. rewrite export_rows_from. cbn [app].
  split; [reflexivity|]. split; [|split].
  - intros memory'. rewrite export_rows_from. cbn [app].
    revert memory'. induction memory as [|o m IH]; intros [|o' m'] E;
      try discriminate E; [reflexivity|].
    cbn [map] in E. injection E as E1 E2 E3 E4 E5 E6.
    destruct o as [[pd p u] e d], o' as [[pd' p' u'] e' d']. cbn in *.
    subst. f_equal. now apply IH.
  - destruct framework as [[|o m]|]; [now right | discriminate | now left].
  - intros [-> | ->]; reflexivity.
Qed.

End Dashboard.

(** ** Counting the colors *)

Section CategoryCounts.

Lemma dict_get_set_same {V} (k : string) (v dflt : V) (d : dict V) :
  dict_get k dflt (dict_set k v d) = v.
Proof.
  induction d as [|[k' v'] d IH]; cbn [dict_set dict_get].
  - now rewrite String.eqb_refl.
  - destruct (String.eqb k' k) eqn:E; cbn [dict_get]; now rewrite E.
Qed.

Lemma dict_get_set_other {V} (k k' : string) (v dflt : V) (d : dict V) :
  k <> k' -> dict_get k' dflt (dict_set k v d) = dict_get k' dflt d.
Proof.
  intros N. induction d as [|[k0 v0] d IH]; cbn [dict_set dict_get].
  - apply String.eqb_neq in N. now rewrite N.
  - destruct (String.eqb k0 k) eqn:E; cbn [dict_get]; [|now rewrite IH].
    apply String.eqb_eq in E. subst k0.
    apply String.eqb_neq in N. now rewrite N.
Qed.

Lemma dict_set_keys {V} (k : string) (v : V) (d : dict V) :
  map fst (dict_set k v d) =
  if existsb (fun y => String.eqb y k) (map fst d)
  then map fst d else map fst d ++ [k].
Proof.
  induction d as [|[k' v'] d IH]; [reflexivity|].
  cbn [dict_set map fst existsb].
  destruct (String.eqb k' k); [reflexivity|]. cbn [map fst orb].
  rewrite IH. now destruct (existsb _ (map fst d)).
Qed.

Lemma dict_set_sum (k : string) (d : dict nat) :
  list_sum (map snd (dict_set k (dict_get k 0 d + 1) d))
  = list_sum (map snd d) + 1.
Proof.
  induction d as [|[k' v'] d IH]; [reflexivity|].
  cbn [dict_set dict_get]. destruct (String.eqb k' k); cbn [map snd];
    change (list_sum (?a :: ?l)) with (a + list_sum l).
  - lia.
  - rewrite IH. lia.
Qed.

Lemma counts_from (colors : list string) (c : string) :
  forall d,
    dict_get c 0 (fold_left counts_step colors d)
    = dict_get c 0 d + count_occ string_dec colors c.
Proof.
  induction colors as [|x colors IH]; intros d; cbn [fold_left count_occ].
  - lia.
  - rewrite IH. unfold counts_step.
    destruct (string_dec x c) as [->|N].
    + rewrite dict_get_set_same. lia.
    + now rewrite (dict_get_set_other x c _ _ _ N).
Qed.

(** X20.  After the counting loop every color has as its count the number
    of times it occurs in the list, a color that does not occur having none
    (0 by default). *)
Theorem category_counts_count (colors : list string) (color : string) :
  dict_get color 0 (category_counts colors)
  = count_occ string_dec colors color.
Proof. apply (counts_from colors color []). Qed.

Lemma filter_filter {A} (p q : A -> bool) (l : list A) :
  filter p (filter q l) = filter (fun x => q x && p x) l.
Proof.
  induction l as [|x l IH]; [reflexivity|]. cbn [filter].
  destruct (q x); cbn [filter andb]; [destruct (p x)|]; now rewrite IH.
Qed.

Lemma keys_from (colors : list string) :
  forall d : dict nat,
    map fst (fold_left counts_step colors d)
    = map fst d ++
      filter (fun y => negb (existsb (fun k => String.eqb k y) (map fst d)))
        (first_occurrences colors).
Proof.
  induction colors as [|c cs IH]; intros d;
    cbn [fold_left first_occurrences filter].
  - now rewrite app_nil_r.
  - rewrite IH. unfold counts_step. rewrite dict_set_keys.
    rewrite filter_filter.
    destruct (existsb (fun y => String.eqb y c) (map fst d)) eqn:Ex;
      cbn [negb].
    + f_equal. apply filter_ext_in. intros y _.
      destruct (String.eqb y c) eqn:E; cbn [negb andb]; [|reflexivity].
      apply String.eqb_eq in E. subst y. now rewrite Ex.
    + rewrite <- app_assoc. cbn [app]. do 2 f_equal.
      apply filter_ext. intros y. rewrite existsb_app.
      cbn [existsb]. rewrite orb_false_r, negb_orb.
      rewrite (String.eqb_sym c y). apply andb_comm.
Qed.

Lemma sum_from (colors : list string) :
  forall d : dict nat,
    list_sum (map snd (fold_left counts_step colors d))
    = list_sum (map snd d) + length colors.
Proof.
  induction colors as [|c cs IH]; intros d; cbn [fold_left length]; [lia|].
  rewrite IH. unfold counts_step. rewrite dict_set_sum. lia.
Qed.

(** X21.  The keys of the counts, which name the sectors of the pie chart,
    are the colors of the list, each once, in the order of their first
    occurrence, and the counts add up to the length of the list. *)
Theorem category_counts_keys (colors : list string) :
  map fst (category_counts colors) = first_occurrences colors /\
  list_sum (map snd (category_counts colors)) = length colors.
Proof.
  split.
  - unfold category_counts. change (fun counts color => _) with counts_step.
    rewrite (keys_from colors []). cbn [map app existsb negb].
    clear. induction (first_occurrences colors) as [|y l IH];
      [reflexivity|]. cbn [filter]. now rewrite IH.
  - apply (sum_from colors []).
Qed.

End CategoryCounts.

(** ** The split once more *)

Section SingleMarker.
Import PyStr PyStrFacts.
Local Open Scope string_scope.

Lemma prefix_app_long (p y z : string) :
  prefix p (y ++ z) = true -> String.length p <= String.length y ->
  prefix p y = true.
Proof.
  revert y. induction p as [|a p IH]; intros y H L; [now destruct y|].
  destruct y as [|b y]; [cbn in L; lia|].
  cbn [append prefix] in H |- *.
  destruct (ascii_dec a b); [|discriminate H].
  apply IH; [exact H | cbn in L; lia].
Qed.

Lemma marker_first (d f a b : string) :
  contains "Features" d = false ->
  d ++ "Features" ++ f = a ++ "Features" ++ b ->
  String.length d <= String.length a.
Proof.
  intros Hd E.
  destruct (Nat.le_gt_cases (String.length d) (String.length a)) as [L|L];
    [exact L | exfalso].
  destruct (app_eq_app_le a ("Features" ++ b) d ("Features" ++ f)
              (eq_sym E) (Nat.lt_le_incl _ _ L)) as (y & Ed & Ey).
  destruct (marker_rest y b f Ey) as [[-> _] | Eb].
  - rewrite Ed, length_app in L. cbn in L. lia.
  - assert (P : prefix "Features" (y ++ "Features" ++ f) = true)
      by (rewrite <- Ey; apply prefix_app).
    destruct (marker_no_overlap y f P) as [-> | Ly].
    + rewrite Ed, length_app in L. cbn in L. lia.
    + assert (Py : prefix "Features" y = true).
      { apply (prefix_app_long _ y ("Features" ++ f) P). exact Ly. }
      rewrite Ed, (contains_app_r "Features" a y (contains_prefix _ _ Py))
        in Hd.
      discriminate.
Qed.

(** X22.  On a text with the marker the split returns the pair [(d, f)]
    exactly when the text is [d], the marker and [f] with no marker in [d]
    and none in [f], that is, when the marker occurs once. *)
Theorem split_content_single_marker (content d f : string) :
  contains "Features" content = true ->
  split_content content = inr (d, f) <->
  content = d ++ "Features" ++ f /\
  contains "Features" d = false /\ contains "Features" f = false.
Proof.
  intros H. split.
  - intros S. destruct (split_content_found _ _ _ H S) as (E & F & R).
    repeat split; try assumption.
    destruct (contains "Features" d) eqn:Hd; [exfalso | reflexivity].
    destruct (contains_inv _ _ Hd) as (a & b & Ed).
    assert (L : String.length d <= String.length a).
    { apply (F a (b ++ "Features" ++ f)). rewrite E, Ed at 1.
      now rewrite !app_assoc. }
    rewrite Ed, !length_app in L. cbn in L. lia.
  - intros (-> & Hd & Hf). apply split_content_once; [|exact Hf].
    intros a b E. now apply (marker_first d f a b).
Qed.

End SingleMarker.

(** ** The further statements at the fixtures *)

Section FurtherWitnesses.
Import PyStr.

Lemma extract_found_trimmed_witness :
  soup_find_div Fixture.snippets Fixture.nested_snippet "snippet summary"
  = Some (mkTag Fixture.nested_text1 Fixture.nested_text1) /\
  trimmed (extract Fixture.snippets Fixture.nested_snippet) = true.
Proof.
  split; [reflexivity|].
  apply (extract_found_trimmed Fixture.snippets Fixture.nested_snippet
           (mkTag Fixture.nested_text1 Fixture.nested_text1)).
  reflexivity.
Defined.

Lemma sub_tags_without_lt_witness :
  occurs Re.LT "a > b" = false /\ Re.sub_tags "a > b" = "a > b"%string.
Proof.
  split; [reflexivity|]. apply (sub_tags_without_lt "a > b"). reflexivity.
Defined.

Lemma sub_tags_removes_tag_witness :
  (occurs Re.LT "a " = false /\ "b"%string <> ""%string /\
   occurs Re.LT "b" = false /\ occurs Re.GT "b" = false) /\
  Re.sub_tags ("a " ++ String Re.LT ("b" ++ String Re.GT "bold</b>"))
  = ("a " ++ Re.sub_tags "bold</b>")%string.
Proof.
  split; [repeat split; try reflexivity; discriminate|].
  apply (sub_tags_removes_tag "a " "b" "bold</b>");
    try reflexivity; discriminate.
Defined.

Lemma init_provenance_witness :
  outcome (ScrapedDeal_init Fixture.site Fixture.e_scenario)
  = inr Fixture.d_scenario /\
  (e_title Fixture.e_scenario = Some (title Fixture.d_scenario) /\
   (exists raw, e_summary Fixture.e_scenario = Some raw /\
                summary Fixture.d_scenario = extract Fixture.site raw) /\
   (exists links,
      e_links Fixture.e_scenario
      = Some (mkLink (Some (url Fixture.d_scenario)) :: links)) /\
   trace (ScrapedDeal_init Fixture.site Fixture.e_scenario)
   = [HttpGet (url Fixture.d_scenario)]).
Proof.
  split; [reflexivity|].
  apply (init_provenance Fixture.site Fixture.e_scenario). reflexivity.
Defined.

Lemma init_malformed_entry_witness :
  let entry := mkEntry None (Some "A lamp"%string) None in
  (e_title entry = None \/ e_summary entry = None) /\
  trace (ScrapedDeal_init Fixture.site entry) = [] /\
  outcome (ScrapedDeal_init Fixture.site entry) = inl (KeyError "title").
Proof.
  intros entry. split; [left; reflexivity|].
  apply (init_malformed_entry Fixture.site entry). left. reflexivity.
Defined.

Lemma built_record_marker_free_witness :
  outcome (ScrapedDeal_init Fixture.site Fixture.e_scenario)
  = inr Fixture.d_scenario /\
  contains "Features" (details Fixture.d_scenario) = false /\
  contains "Features" (features Fixture.d_scenario) = false.
Proof.
  split; [reflexivity|].
  apply (built_record_marker_free Fixture.site Fixture.e_scenario).
  reflexivity.
Defined.

Lemma built_record_single_line_witness :
  outcome (ScrapedDeal_init Fixture.site Fixture.e_scenario)
  = inr Fixture.d_scenario /\
  occurs LF (summary Fixture.d_scenario) = false /\
  occurs LF (details Fixture.d_scenario) = false /\
  occurs LF (features Fixture.d_scenario) = false.
Proof.
  split; [reflexivity|].
  apply (built_record_single_line Fixture.site Fixture.e_scenario).
  reflexivity.
Defined.

Lemma describe_ignores_padding_witness :
  (all_space " " = true /\ all_space "" = true /\
   all_space (String LF " ") = true /\ all_space "  " = true) /\
  describe (mkScrapedDeal (title Fixture.d_scenario)
              (summary Fixture.d_scenario) (url Fixture.d_scenario)
              (" " ++ details Fixture.d_scenario ++ "")
              (String LF " " ++ features Fixture.d_scenario ++ "  "))
  = describe Fixture.d_scenario.
Proof.
  split; [repeat split; reflexivity|].
  apply (describe_ignores_padding Fixture.d_scenario " " "" (String LF " ")
           "  "); reflexivity.
Defined.

Lemma fetch_from_events_witness :
  let feed_urls := ["http://feed/empty"; "http://feed/three"]%string in
  let ds := repeat Fixture.d_scenario 3 in
  outcome (fetch_from Fixture.site feed_urls false) = inr ds /\
  exists per_feed,
    Forall2 (feed_records Fixture.site) feed_urls per_feed /\
    ds = concat per_feed /\
    trace (fetch_from Fixture.site feed_urls false)
    = run_events feed_urls per_feed.
Proof.
  intros feed_urls ds. split; [reflexivity|].
  apply (fetch_from_events Fixture.site feed_urls ds). reflexivity.
Defined.


Lemma fetch_feed_failure_witness :
  let three := "http://feed/three"%string in
  let down := "http://feed/down"%string in
  let d := Fixture.d_scenario in
  ([three; down; three] = [three] ++ down :: [three] /\
   Forall2 (feed_records Fixture.site) [three] [[d; d; d]] /\
   feedparser_parse Fixture.site down = inl (LibError "RemoteDisconnected")) /\
  outcome (fetch_from Fixture.site [three; down; three] true)
  = inl (LibError "RemoteDisconnected") /\
  trace (fetch_from Fixture.site [three; down; three] false)
  = run_events [three] [[d; d; d]] ++ [FeedParsed down].
Proof.
  intros three down d.
  assert (H2 : Forall2 (feed_records Fixture.site) [three] [[d; d; d]]).
  { constructor; [|constructor].
    exists (mkFeed [Fixture.e_scenario; Fixture.e_scenario;
                    Fixture.e_scenario]).
    split; [reflexivity|]. repeat constructor. }
  split; [repeat split; try assumption; reflexivity|].
  apply (fetch_feed_failure Fixture.site [three; down; three] [three] [three]
           down true [[d; d; d]] (LibError "RemoteDisconnected"));
    try assumption; reflexivity.
Defined.

Lemma best_discount_is_max_witness :
  let d := mkDeal "x" 50%float "http://x" in
  let memory := [mkOpportunity d 80%float 30%float;
                 mkOpportunity d 120%float 70%float;
                 mkOpportunity d 40%float (-10)%float] in
  (forall opp, In opp memory -> is_nan (discount opp) = false) /\
  best_discount memory = inr (Some 70%float) /\
  forall opp, In opp memory -> (discount opp <=? 70)%float = true.
Proof.
  intros d memory.
  assert (H : forall opp, In opp memory -> is_nan (discount opp) = false).
  { intros opp [<- | [<- | [<- | []]]]; reflexivity. }
  split; [exact H|]. split; [reflexivity|].
  destruct (best_discount_is_max memory) as (r & E & _ & M).
  injection E as <-.
  exact (proj2 (M _ eq_refl) H).
Defined.

Lemma split_content_single_marker_witness :
  contains "Features" Fixture.text_scenario = true /\
  (split_content Fixture.text_scenario
   = inr ("...intro text..."%string, " bullet one bullet two"%string) <->
   Fixture.text_scenario
   = ("...intro text..." ++ "Features" ++ " bullet one bullet two")%string /\
   contains "Features" "...intro text..." = false /\
   contains "Features" " bullet one bullet two" = false).
Proof.
  split; [reflexivity|].
  apply (split_content_single_marker Fixture.text_scenario). reflexivity.
Defined.

End FurtherWitnesses.

(** ** The counting loop on an example *)

Example category_counts_example :
  category_counts ["red"; "blue"; "red"; "green"; "blue"; "red"]%string
  = [("red", 3); ("blue", 2); ("green", 1)]%string.
Proof. reflexivity. Qed.

Example first_occurrences_example :
  first_occurrences ["red"; "blue"; "red"; "green"; "blue"; "red"]%string
  = ["red"; "blue"; "green"]%string.
Proof. reflexivity. Qed.
